(** * Retrieval fusion and context-budgeted chat turns of the legal RAG service

    A shallow embedding of [rag_service/src/hybrid_retriever.py] and
    [rag_service/src/rag_pipeline.py].

    Conventions of the embedding.
    - Python [str] is [string]; a character is a code point below 256, and
      [str.lower], [str.strip], [str.split] and the regular-expression
      classes [\s], [\w] are the ones Python applies to those code points.
    - Python [int] is [Z]; list positions and lengths are [nat].
    - Relevance scores are exact rationals ([Q]); the rounding of binary
      floating point is not part of the model.
    - Calls to the collaborators of the pipeline (text generation, the
      conversation store, the evaluator) are nodes of a program tree
      ([Effects.prog]); a collaborator may answer with a value or raise. *)

From Stdlib Require Import List String Ascii Bool Arith ZArith QArith Lia Lqa.
From Stdlib Require Import Permutation Sorted.
Import ListNotations.

Close Scope Q_scope.
Local Open Scope string_scope.

(* ====================================================================== *)
(** ** Python strings *)
(* ====================================================================== *)

Module PyStr.

Definition code (c : ascii) : nat := nat_of_ascii c.

Definition between (lo hi n : nat) : bool := (lo <=? n)%nat && (n <=? hi)%nat.

(** [str.isspace] on one character: TAB..CR, FS..US, SPACE, NEL, NBSP. *)
Definition isspace (c : ascii) : bool :=
  let n := code c in
  between 9 13 n || between 28 32 n || (n =? 133)%nat || (n =? 160)%nat.

(** [str.lower] on one character: A-Z and the upper-case Latin-1 letters
    (all of 0xC0..0xDE but the multiplication sign 0xD7). *)
Definition lower_char (c : ascii) : ascii :=
  let n := code c in
  if between 65 90 n || (between 192 222 n && negb (n =? 215)%nat)
  then ascii_of_nat (n + 32) else c.

Fixpoint lower (s : string) : string :=
  match s with
  | EmptyString => EmptyString
  | String c s' => String (lower_char c) (lower s')
  end.

Fixpoint lstrip (s : string) : string :=
  match s with
  | EmptyString => EmptyString
  | String c s' => if isspace c then lstrip s' else s
  end.

Fixpoint rstrip (s : string) : string :=
  match s with
  | EmptyString => EmptyString
  | String c s' =>
      match rstrip s' with
      | EmptyString => if isspace c then EmptyString else String c EmptyString
      | r => String c r
      end
  end.

(** [s.strip()] *)
Definition strip (s : string) : string := rstrip (lstrip s).

(** [s.split()] with no separator: maximal runs of non-space characters.
    [cur] is the run being read, if one has started. *)
Fixpoint split_from (cur : option string) (s : string) : list string :=
  match s with
  | EmptyString => match cur with Some w => [w] | None => [] end
  | String c s' =>
      if isspace c then
        match cur with
        | Some w => w :: split_from None s'
        | None => split_from None s'
        end
      else
        split_from
          (Some (match cur with
                 | Some w => w ++ String c EmptyString
                 | None => String c EmptyString
                 end)) s'
  end.

Definition split (s : string) : list string := split_from None s.

(** [s.startswith(p)] *)
Definition startswith (s p : string) : bool := String.prefix p s.

(** [sub in s] *)
Fixpoint contains (sub s : string) : bool :=
  String.prefix sub s ||
  match s with
  | EmptyString => false
  | String _ s' => contains sub s'
  end.

(** [x in xs] for a list of strings *)
Definition mem (x : string) (xs : list string) : bool :=
  existsb (String.eqb x) xs.

(** [sep.join(parts)] *)
Definition join (sep : string) (parts : list string) : string :=
  String.concat sep parts.

(** [len(s)] *)
Definition len (s : string) : Z := Z.of_nat (String.length s).

Fixpoint take (n : nat) (s : string) : string :=
  match n, s with
  | S n', String c s' => String c (take n' s')
  | _, _ => EmptyString
  end.

Fixpoint drop (n : nat) (s : string) : string :=
  match n, s with
  | S n', String _ s' => drop n' s'
  | _, _ => s
  end.

(** [s[:n]]: a negative bound counts from the end. *)
Definition slice_to (s : string) (n : Z) : string :=
  if (0 <=? n)%Z then take (Z.to_nat n) s
  else take (String.length s - Z.to_nat (- n)) s.

(** [s[n:]]: a negative bound counts from the end. *)
Definition slice_from (s : string) (n : Z) : string :=
  if (0 <=? n)%Z then drop (Z.to_nat n) s
  else drop (String.length s - Z.to_nat (- n)) s.

(** The characters LF and double quote, for the prompts. *)
Definition nl : string := String (ascii_of_nat 10) EmptyString.
Definition dq : string := String (ascii_of_nat 34) EmptyString.

End PyStr.

(** [xs[:n]] on a list: a negative bound counts from the end. *)
Definition list_slice_to {A : Type} (xs : list A) (n : Z) : list A :=
  if (0 <=? n)%Z then firstn (Z.to_nat n) xs
  else firstn (List.length xs - Z.to_nat (- n)) xs.

(* ====================================================================== *)
(** ** The regular expressions of the follow-up rule *)
(* ====================================================================== *)

Module Re.

(** The fragment of Python's [re] syntax that the pipeline uses. *)
Inductive regex : Type :=
| Lit (s : string)            (* literal text *)
| WordBoundary                (* \b *)
| Start                       (* ^ (no MULTILINE flag) *)
| Spaces1                     (* \s+ *)
| Alt (r1 r2 : regex)         (* r1|r2 *)
| Seq (r1 r2 : regex)         (* r1 r2 *)
| Opt (r : regex).            (* r? *)

(** [\w] on one character: ASCII letters, digits, underscore and the
    alphanumeric Latin-1 code points. *)
Definition isword (c : ascii) : bool :=
  let n := PyStr.code c in
  PyStr.between 48 57 n || PyStr.between 65 90 n || PyStr.between 97 122 n
  || (n =? 95)%nat
  || (n =? 170)%nat || (n =? 178)%nat || (n =? 179)%nat || (n =? 181)%nat
  || (n =? 185)%nat || (n =? 186)%nat || PyStr.between 188 190 n
  || PyStr.between 192 214 n || PyStr.between 216 246 n
  || PyStr.between 248 255 n.

Definition isword_opt (c : option ascii) : bool :=
  match c with Some c => isword c | None => false end.

Definition next_char (s : string) : option ascii :=
  match s with String c _ => Some c | EmptyString => None end.

(** A position in the subject is the character before it ([None] at the
    start of the subject) and the text after it. *)
Fixpoint match_lit (l : string) (prev : option ascii) (s : string)
  : option (option ascii * string) :=
  match l with
  | EmptyString => Some (prev, s)
  | String a l' =>
      match s with
      | String c s' => if Ascii.eqb a c then match_lit l' (Some c) s' else None
      | EmptyString => None
      end
  end.

(** One or more space characters, then [k]; every split point is tried. *)
Fixpoint spaces_then (k : option ascii -> string -> bool) (s : string) : bool :=
  match s with
  | String c s' =>
      if PyStr.isspace c then spaces_then k s' || k (Some c) s' else false
  | EmptyString => false
  end.

(** Backtracking matcher: does [r] match at this position with a
    remainder accepted by the continuation [k]? *)
Fixpoint match_at (r : regex) (prev : option ascii) (s : string)
         (k : option ascii -> string -> bool) : bool :=
  match r with
  | Lit l =>
      match match_lit l prev s with
      | Some (p, s') => k p s'
      | None => false
      end
  | WordBoundary =>
      if xorb (isword_opt prev) (isword_opt (next_char s)) then k prev s else false
  | Start =>
      match prev with None => k prev s | Some _ => false end
  | Spaces1 => spaces_then k s
  | Alt r1 r2 => match_at r1 prev s k || match_at r2 prev s k
  | Seq r1 r2 => match_at r1 prev s (fun p s' => match_at r2 p s' k)
  | Opt r1 => match_at r1 prev s k || k prev s
  end.

Fixpoint search_from (r : regex) (prev : option ascii) (s : string) : bool :=
  match_at r prev s (fun _ _ => true) ||
  match s with
  | String c s' => search_from r (Some c) s'
  | EmptyString => false
  end.

(** [re.search(r, s)] as a truth value. *)
Definition search (r : regex) (s : string) : bool := search_from r None s.

Definition word (w : string) : regex := Seq WordBoundary (Seq (Lit w) WordBoundary).

End Re.

(* ====================================================================== *)
(** ** Data of a chat turn *)
(* ====================================================================== *)

(** The [tokens_estimate] entry of the debug dictionary. *)
Record tokens_estimate : Type := {
  te_conversation : Z;
  te_retrieved : Z;
  te_query : Z;
  te_total_context_allowed : Z
}.

(** The three rewrite keys that the retrieval path adds to the debug
    dictionary. *)
Record rewrite_flags : Type := {
  query_rewritten : bool;
  original_query : option string;
  rewritten_query : option string
}.

(** The [debug] dictionary of a turn.  [note] is present on the greeting
    path only, [rewrite] on the retrieval path only. *)
Record debug_info : Type := {
  conversation_context_preview : string;
  retrieved_context_preview : string;
  tokens : tokens_estimate;
  used_k : Z;
  note : option string;
  rewrite : option rewrite_flags
}.

(** The [debug] entry of a stored message. *)
Inductive message_debug : Type :=
| DebugNote (text : string)
| DebugTurn (d : debug_info)
| DebugRetrievedPreview (text : string).

(** A document handed to [messages.insert_one] (its [created_at] clock
    reading is left out). *)
Record message_doc : Type := {
  msg_session_id : string;
  msg_sender : string;
  msg_text : string;
  msg_debug : message_debug
}.

(** What the evaluator may hand back: [None], a dictionary, or any other
    object, of which only the truth value matters. *)
Inductive py_obj : Type :=
| PyNone
| PyDict (entries : list (string * string))
| PyOther (truthy : bool) (repr : string).

(** The dictionary returned by [chat]. *)
Record chat_result : Type := {
  response : string;
  debug : debug_info;
  evaluation : py_obj
}.

(* ====================================================================== *)
(** ** Calls to collaborators *)
(* ====================================================================== *)

Module Effects.

(** A Python exception, with the text [str(e)] gives. *)
Inductive exn : Type := Exception (msg : string).

Definition str (e : exn) : string := match e with Exception m => m end.

(** Arguments of [groq_client.chat.completions.create]; a message is a
    (role, content) pair. *)
Record completion_request : Type := {
  model : string;
  messages : list (string * string);
  temperature : Q;
  max_tokens : Z
}.

(** One call to a collaborator, indexed by the type of its answer.
    [ChatCompletion] answers with [resp.choices[0].message.content]. *)
Inductive event : Type -> Type :=
| ChatCompletion (req : completion_request) : event string
| GetConversationContext (session_id : string) (groq_client : bool) : event string
| EnsureSummaryLimit (session_id : string) (max_summary_tokens : Z) : event unit
| AddExchange (session_id query response_text : string) (assistant : debug_info)
    : event unit
| InsertOne (doc : message_doc) : event unit
| EvaluateConversationTurn (session_id query response_text context : string)
    : event py_obj.

(** A computation that returns, raises, or calls a collaborator and goes
    on with its answer or with the exception it raised. *)
Inductive prog (A : Type) : Type :=
| Ret (a : A)
| Raise (e : exn)
| Vis {X : Type} (ev : event X) (k : exn + X -> prog A).

Arguments Ret {A} a.
Arguments Raise {A} e.
Arguments Vis {A X} ev k.

Fixpoint bind {A B : Type} (p : prog A) (f : A -> prog B) : prog B :=
  match p with
  | Ret a => f a
  | Raise e => Raise e
  | Vis ev k => Vis ev (fun r => bind (k r) f)
  end.

(** [try: p except Exception as e: h e] *)
Fixpoint try_catch {A : Type} (p : prog A) (h : exn -> prog A) : prog A :=
  match p with
  | Ret a => Ret a
  | Raise e => h e
  | Vis ev k => Vis ev (fun r => try_catch (k r) h)
  end.

(** A plain call: an exception of the collaborator propagates. *)
Definition call {X : Type} (ev : event X) : prog X :=
  Vis ev (fun r => match r with inl e => Raise e | inr x => Ret x end).

(** The collaborators: each call is answered from a state [S]. *)
Definition handler (S : Type) : Type :=
  forall X : Type, event X -> S -> (exn + X) * S.

Fixpoint run {S A : Type} (h : handler S) (p : prog A) (s : S) : (exn + A) * S :=
  match p with
  | Ret a => (inr a, s)
  | Raise e => (inl e, s)
  | Vis ev k => let (r, s') := h _ ev s in run h (k r) s'
  end.

(** The requests a run sends to the text generator, in order. *)
Fixpoint completions {S A : Type} (h : handler S) (p : prog A) (s : S)
  : list completion_request :=
  match p with
  | Ret _ | Raise _ => []
  | Vis ev k =>
      let (r, s') := h _ ev s in
      match ev with
      | ChatCompletion req => req :: completions h (k r) s'
      | _ => completions h (k r) s'
      end
  end.

End Effects.

Import Effects.

Declare Scope prog_scope.
Delimit Scope prog_scope with prog.
Notation "x <- p ;; q" := (bind p (fun x => q))
  (at level 61, p at next level, right associativity) : prog_scope.
Notation "p ;; q" := (bind p (fun _ => q))
  (at level 61, right associativity) : prog_scope.

(* ====================================================================== *)
(** ** hybrid_retriever.py *)
(* ====================================================================== *)

Module HybridRetriever.

(** The retriever object.  [vector_store] is the [search] method of the
    vector store handed to the constructor, [bm25] the [get_scores]
    method of the BM25 index built from the tokenized documents, and
    [argsort] is [numpy.argsort]: the indices of an array in ascending
    order of its values, in an order among equal values that numpy does
    not fix. *)
Record t : Type := {
  vector_store : string -> Z -> list (string * Q);
  documents : list string;
  bm25 : list string -> list Q;
  argsort : list Q -> list nat
}.

(** [[t for t in text.lower().split() if len(t) > 1]] *)
Definition tokenize (text : string) : list string :=
  filter (fun t => (1 <? PyStr.len t)%Z) (PyStr.split (PyStr.lower text)).

(** [__init__]: [BM25Okapi] is the constructor of the lexical index. *)
Definition init (BM25Okapi : list (list string) -> list string -> list Q)
           (np_argsort : list Q -> list nat)
           (vector_store : string -> Z -> list (string * Q))
           (documents : list string) : t :=
  let tokenized :=
    map (fun doc =>
           match tokenize doc with
           | [] => ["empty"]
           | tokens => tokens
           end) documents in
  {| vector_store := vector_store;
     documents := documents;
     bm25 := BM25Okapi tokenized;
     argsort := np_argsort |}.

(** [docs.index(doc)]: the first position of [doc]; [None] stands for
    the [ValueError]. *)
Fixpoint index_of (doc : string) (docs : list string) : option nat :=
  match docs with
  | [] => None
  | d :: docs' =>
      if String.eqb d doc then Some O
      else option_map S (index_of doc docs')
  end.

(** The loop that maps vector results back to corpus indices, skipping
    the texts that are not in the corpus. *)
Definition vector_ranked_of (docs : list string) (vector_results : list (string * Q))
  : list nat :=
  flat_map (fun r => match index_of (fst r) docs with
                     | Some idx => [idx]
                     | None => []
                     end) vector_results.

(** [rrf_scores]: a dictionary, kept in insertion order. *)
Definition dict : Type := list (nat * Q).

Fixpoint dict_get (d : dict) (key : nat) (default : Q) : Q :=
  match d with
  | [] => default
  | (k', v) :: d' => if (k' =? key)%nat then v else dict_get d' key default
  end.

Fixpoint dict_set (d : dict) (key : nat) (v : Q) : dict :=
  match d with
  | [] => [(key, v)]
  | (k', v') :: d' =>
      if (k' =? key)%nat then (key, v) :: d' else (k', v') :: dict_set d' key v
  end.

Definition rrf_k : Z := 60.

(** [enumerate(xs)] *)
Definition enumerate {A : Type} (xs : list A) : list (nat * A) :=
  combine (seq 0 (List.length xs)) xs.

(** The contribution [weight / (rrf_k + rank + 1)] of one ranked entry. *)
Definition contribution (weight : Q) (rank : nat) : Q :=
  (weight / inject_Z (rrf_k + Z.of_nat rank + 1))%Q.

(** [for rank, doc_idx in enumerate(ranked):
       rrf_scores[doc_idx] = rrf_scores.get(doc_idx, 0) + weight / (rrf_k + rank + 1)] *)
Definition add_ranks (weight : Q) (ranked : list nat) (rrf_scores : dict) : dict :=
  fold_left
    (fun d (e : nat * nat) =>
       let (rank, doc_idx) := e in
       dict_set d doc_idx (dict_get d doc_idx 0 + contribution weight rank)%Q)
    (enumerate ranked) rrf_scores.

(** [sorted(items, key=lambda x: x[1], reverse=True)]: a stable sort by
    descending score. *)
Fixpoint insert_desc (x : nat * Q) (l : list (nat * Q)) : list (nat * Q) :=
  match l with
  | [] => [x]
  | y :: l' =>
      if Qle_bool (snd y) (snd x) then x :: l
      else y :: insert_desc x l'
  end.

Definition sorted_desc (items : list (nat * Q)) : list (nat * Q) :=
  fold_right insert_desc [] items.

Definition query_tokens (query : string) : list string := tokenize query.

Definition bm25_ranked (self : t) (query : string) : list nat :=
  rev (argsort self (bm25 self (query_tokens query))).

Definition vector_ranked (self : t) (query : string) : list nat :=
  vector_ranked_of (documents self)
    (vector_store self query (Z.of_nat (List.length (documents self)))).

(** [bm25_ranked[:k*3]] and [vector_ranked[:k*3]] *)
Definition bm25_top (self : t) (query : string) (k : Z) : list nat :=
  list_slice_to (bm25_ranked self query) (k * 3).

Definition vector_top (self : t) (query : string) (k : Z) : list nat :=
  list_slice_to (vector_ranked self query) (k * 3).

Definition rrf_scores (self : t) (query : string) (k : Z) (alpha : Q) : dict :=
  add_ranks alpha (vector_top self query k)
    (add_ranks 1 (bm25_top self query k) []).

(** One pass of the loop that builds [results]: the entry is kept, with
    its passage, when [doc_idx < len(documents)]. *)
Definition lookup_entry (docs : list string) (e : nat * Q) : list (string * Q) :=
  let (doc_idx, rrf_score) := e in
  match nth_error docs doc_idx with
  | Some doc => [(doc, rrf_score)]
  | None => []
  end.

(** [search(query, k, alpha)] *)
Definition search (self : t) (query : string) (k : Z) (alpha : Q)
  : list (string * Q) :=
  match query_tokens query with
  | [] => vector_store self query k
  | _ :: _ =>
      let sorted_docs := sorted_desc (rrf_scores self query k alpha) in
      flat_map (lookup_entry (documents self)) (list_slice_to sorted_docs k)
  end.

End HybridRetriever.

(* ====================================================================== *)
(** ** rag_pipeline.py *)
(* ====================================================================== *)

Module RAGPipeline.

Import PyStr.

(** The pipeline object.  [vector_store] is the [search] method of its
    vector store, [evaluator] tells whether [self.evaluator] is set, and
    [RETRIEVE_K] is the integer read from the environment at each turn.
    The text-generation client is always present once the object is
    built. *)
Record t : Type := {
  vector_store : string -> Z -> list (string * Q);
  hybrid_retriever : option HybridRetriever.t;
  evaluator : bool;
  is_initialized : bool;
  model_max_tokens : Z;
  reserved_response_tokens : Z;
  min_k : Z;
  RETRIEVE_K : Z
}.

Definition threshold : Q := 2 # 10.
Definition hybrid_alpha : Q := 9 # 10.

(** [score > 0.2] *)
Definition above_threshold (score : Q) : bool := negb (Qle_bool score threshold).

(** The [results] of [retrieve_context]: hybrid search when the retriever
    exists, else vector search. *)
Definition retrieve_results (self : t) (query : string) (k : Z)
  : list (string * Q) :=
  match hybrid_retriever self with
  | Some hr => HybridRetriever.search hr query k hybrid_alpha
  | None => vector_store self query k
  end.

Definition retrieve_context (self : t) (query : string) (k : Z) : string :=
  if negb (is_initialized self) then ""
  else
    let results := retrieve_results self query k in
    let context_parts :=
      map fst (filter (fun r => above_threshold (snd r)) results) in
    let context_parts :=
      match context_parts, results with
      | [], _ :: _ => map fst (list_slice_to results k)
      | _, _ => context_parts
      end in
    join (nl ++ nl) context_parts.

Definition _estimate_tokens (text : string) : Z :=
  if String.eqb text "" then 0%Z else Z.max 1 (len text / 4).

Definition greeting_words : list string :=
  ["hi"; "hey"; "hello"; "yo"; "thanks"; "thx"; "bye"].

Definition greeting_patterns : list string :=
  ["good morning"; "good night"; "good evening"; "thank you"; "thanks a lot"].

Definition is_greeting (query : string) : bool :=
  if String.eqb query "" then false
  else
    let q := lower (strip query) in
    if (List.length (split q) =? 1)%nat && mem q greeting_words then true
    else if (List.length (split q) <=? 2)%nat && mem q greeting_patterns then true
    else false.

Definition legal_keywords : list string :=
  ["article"; "section"; "act"; "law"; "rights"; "ipc"; "judgment"; "judgement";
   "court"; "statute"; "contract"; "evidence"; "penalty"; "fine"; "offence"; "crime";
   "liable"; "liability"; "divorce"; "marriage"; "custody"; "writ"; "injunction"].

Definition is_informational (query : string) : bool :=
  if String.eqb query "" then false
  else
    let q := lower (strip query) in
    if contains "?" q then true
    else if (40 <? len q)%Z then true
    else existsb (fun kw => contains kw q) legal_keywords.

Definition system_prompt : string :=
  String.concat nl
    ["You are a legal assistant specializing in Indian constitutional law and human rights.";
     "";
     "Your knowledge domains:";
     "- Indian Constitution (Articles, Amendments, Schedules)";
     "- Fundamental Rights (Articles 12-35)";
     "- Directive Principles of State Policy";
     "- Universal Declaration of Human Rights (UDHR)";
     "- Constitutional governance structures (Panchayati Raj, etc.)";
     "";
     "Guidelines:";
     "1. Always cite specific Articles/Sections when applicable";
     "2. Distinguish between constitutional rights vs. human rights treaties";
     "3. If context lacks relevant information, say: " ++ dq ++
       "Based on the available documents, I don't have specific information on this topic."
       ++ dq;
     "4. Use clear, accessible language while maintaining legal accuracy";
     ""].

Definition response_request (query context conversation_context : string)
  : completion_request :=
  {| model := "llama-3.1-8b-instant";
     messages :=
       [("system", system_prompt);
        ("user", "Conversation:" ++ nl ++ conversation_context ++ nl ++ nl
                 ++ "Context:" ++ nl ++ context ++ nl ++ nl
                 ++ "Question: " ++ query)];
     temperature := 2 # 10;
     max_tokens := 1000 |}.

Definition generate_response (query context conversation_context : string)
  : prog string :=
  try_catch
    (call (ChatCompletion (response_request query context conversation_context)))
    (fun e => Ret ("Error generating response: " ++ str e)).

Definition informational_starters : list string :=
  ["explain"; "what is"; "what are"; "what was"; "what does";
   "who"; "when"; "where"; "why"; "how"; "which";
   "define"; "describe"; "list"; "tell me about"].

Definition specific_legal_terms : list string :=
  ["article"; "section"; "act"; "ipc"; "crpc"; "constitution";
   "amendment"; "schedule"; "panchayat"; "fundamental rights";
   "directive principles"; "udhr"; "iccpr"].

Definition strong_follow_up_patterns : list Re.regex :=
  [Re.word "that";
   Re.word "this";
   Re.word "those";
   Re.word "it";
   Re.word "them";
   Re.Seq Re.Start (Re.Alt (Re.Lit "more") (Re.Lit "another"));
   Re.Seq Re.Start
     (Re.Seq (Re.Alt (Re.Lit "give") (Re.Alt (Re.Lit "show") (Re.Lit "provide")))
        (Re.Seq Re.Spaces1
           (Re.Seq (Re.Opt (Re.Seq (Re.Lit "me") Re.Spaces1))
              (Re.Alt (Re.Seq (Re.Lit "example") (Re.Opt (Re.Lit "s")))
                      (Re.Seq (Re.Lit "detail") (Re.Opt (Re.Lit "s")))))))].

Definition rewrite_prompt (query conversation_context : string) : string :=
  String.concat nl
    ["You are rewriting a follow-up legal question to be self-contained.";
     "";
     "Previous conversation (last 2 turns):";
     slice_from conversation_context (-800);
     "";
     "User's follow-up: " ++ query;
     "";
     "Rules:";
     "1. If the query references " ++ dq ++ "that" ++ dq ++ ", " ++ dq ++ "this" ++ dq
       ++ ", " ++ dq ++ "it" ++ dq ++ ", replace with the actual topic from conversation";
     "2. Preserve exact legal terminology (Article numbers, act names, constitutional terms)";
     "3. Keep it concise (max 20 words)";
     "4. If already clear, return unchanged";
     "";
     "Rewritten question:"].

Definition rewrite_request (query conversation_context : string)
  : completion_request :=
  {| model := "llama-3.1-8b-instant";
     messages := [("user", rewrite_prompt query conversation_context)];
     temperature := 5 # 100;
     max_tokens := 50 |}.

Definition word_count (s : string) : nat := List.length (split s).

Definition rewrite_query_with_context (query conversation_context : string)
  : prog string :=
  if String.eqb conversation_context "" then Ret query
  else if (15 <? word_count query)%nat then Ret query
  else if existsb (fun starter => startswith (strip (lower query)) starter)
            informational_starters then Ret query
  else if existsb (fun term => contains term (lower query))
            specific_legal_terms then Ret query
  else
    let has_follow_up :=
      existsb (fun pattern => Re.search pattern (lower query))
        strong_follow_up_patterns in
    if negb has_follow_up then Ret query
    else
      try_catch
        (content <- call (ChatCompletion (rewrite_request query conversation_context)) ;;
         let rewritten := strip content in
         if (word_count query * 2 <? word_count rewritten)%nat then Ret query
         else Ret rewritten)%prog
        (fun _ => Ret query).

(** *** The context budget loop of [chat] *)

Definition available_context_tokens (self : t) : Z :=
  Z.max 256 (model_max_tokens self - reserved_response_tokens self).

(** How the [while True] loop was left. *)
Inductive loop_exit : Type :=
| WithinBudget               (* first [break]: the total fits *)
| WithinBudgetAfterSummary   (* second [break]: it fits after compaction *)
| HardTruncation.            (* last [break]: both contexts are cut *)

(** One pass through the loop body either leaves the loop with the
    values of [k], [conversation_context] and [retrieved_context], or
    reaches [continue] with a new [k] and conversation context. *)
Inductive step_outcome : Type :=
| Break (how : loop_exit) (k : Z) (conversation_context retrieved_context : string)
| Continue (k : Z) (conversation_context : string).

Definition tokens_total (conversation_context retrieved_context : string)
           (query_tokens : Z) : Z :=
  (_estimate_tokens conversation_context
   + _estimate_tokens retrieved_context + query_tokens)%Z.

(** The statements under [try:] that compact the stored summary and read
    the conversation context again; [None] when one of them raised. *)
Definition refresh_summary (session_id : string) : prog (option string) :=
  try_catch
    (call (EnsureSummaryLimit session_id 500) ;;
     c <- call (GetConversationContext session_id false) ;;
     Ret (Some c))%prog
    (fun _ => Ret None).

Definition hard_truncate (self : t) (query_tokens : Z)
           (conversation_context retrieved_context : string) : string * string :=
  let available := available_context_tokens self in
  let allowed_tokens_for_retrieved :=
    Z.max 0 (available - _estimate_tokens conversation_context - query_tokens) in
  let '(conversation_context, allowed_tokens_for_retrieved) :=
    if (allowed_tokens_for_retrieved <=? 0)%Z then
      let conv_chars_keep := Z.max 0 ((available / 2) * 4) in
      let conversation_context :=
        if (0 <? conv_chars_keep)%Z
        then slice_from conversation_context (- conv_chars_keep)
        else "" in
      (conversation_context,
       Z.max 0 (available - _estimate_tokens conversation_context - query_tokens))
    else (conversation_context, allowed_tokens_for_retrieved) in
  let char_limit := (allowed_tokens_for_retrieved * 4)%Z in
  let retrieved_context :=
    if (char_limit <? len retrieved_context)%Z
    then slice_to retrieved_context char_limit
    else retrieved_context in
  (conversation_context, retrieved_context).

Definition loop_step (self : t) (session_id query : string) (include_history : bool)
           (k : Z) (conversation_context : string) : prog step_outcome :=
  let available := available_context_tokens self in
  let query_tokens := _estimate_tokens query in
  let retrieved_context := retrieve_context self query k in
  if (tokens_total conversation_context retrieved_context query_tokens <=? available)%Z
  then Ret (Break WithinBudget k conversation_context retrieved_context)
  else
    (refreshed <- (if include_history then refresh_summary session_id
                   else Ret None) ;;
     let conversation_context :=
       match refreshed with Some c => c | None => conversation_context end in
     let fits :=
       match refreshed with
       | Some _ =>
           (tokens_total conversation_context retrieved_context query_tokens
            <=? available)%Z
       | None => false
       end in
     if fits
     then Ret (Break WithinBudgetAfterSummary k conversation_context retrieved_context)
     else if (min_k self <? k)%Z
     then Ret (Continue (Z.max (min_k self) (k - 1)) conversation_context)
     else
       let (conversation_context, retrieved_context) :=
         hard_truncate self query_tokens conversation_context retrieved_context in
       Ret (Break HardTruncation k conversation_context retrieved_context))%prog.

Record budget_result : Type := {
  how : loop_exit;
  final_k : Z;
  final_conversation_context : string;
  final_retrieved_context : string;
  iterations : nat
}.

(** The [while True] loop, unrolled at most [fuel] times; [done] counts
    the passes already made, and [None] means that [fuel] passes did not
    reach a [break]. *)
Fixpoint budget_loop (fuel : nat) (self : t) (session_id query : string)
         (include_history : bool) (k : Z) (conversation_context : string)
         (done : nat) : prog (option budget_result) :=
  match fuel with
  | O => Ret None
  | S fuel' =>
      (o <- loop_step self session_id query include_history k conversation_context ;;
       match o with
       | Break e k' c r =>
           Ret (Some {| how := e; final_k := k';
                        final_conversation_context := c;
                        final_retrieved_context := r;
                        iterations := S done |})
       | Continue k' c =>
           budget_loop fuel' self session_id query include_history k' c (S done)
       end)%prog
  end.

(** Passes that always suffice when the loop starts at [k]. *)
Definition loop_fuel (self : t) (k : Z) : nat := S (Z.to_nat (k - min_k self)).

(** *** [chat] *)

(** [is_greeting(query) and not is_informational(query)] *)
Definition greeting_shortcut (query : string) : bool :=
  is_greeting query && negb (is_informational query).

Definition evaluate_turn (self : t) (evaluate : bool)
           (session_id query response_text context : string)
           (keep_dict_only : bool) : prog py_obj :=
  if evaluate && evaluator self then
    try_catch
      (v <- call (EvaluateConversationTurn session_id query response_text context) ;;
       Ret (match v with
            | PyOther true _ => if keep_dict_only then PyNone else v
            | _ => v
            end))%prog
      (fun _ => Ret PyNone)
  else Ret PyNone.

Definition greeting_turn (self : t) (session_id query : string) (evaluate : bool)
  : prog chat_result :=
  (response_text <- generate_response query "" "" ;;
   let debug :=
     {| conversation_context_preview := "";
        retrieved_context_preview := "";
        tokens :=
          {| te_conversation := 0; te_retrieved := 0;
             te_query := _estimate_tokens query;
             te_total_context_allowed :=
               model_max_tokens self - reserved_response_tokens self |};
        used_k := 0;
        note := Some "retrieval_skipped_greeting";
        rewrite := None |} in
   try_catch
     (call (InsertOne {| msg_session_id := session_id; msg_sender := "user";
                         msg_text := query;
                         msg_debug := DebugNote "greeting_user_input" |}) ;;
      call (InsertOne {| msg_session_id := session_id; msg_sender := "assistant";
                         msg_text := response_text;
                         msg_debug := DebugTurn debug |}))
     (fun _ => Ret tt) ;;
   evaluation <- evaluate_turn self evaluate session_id query response_text "" false ;;
   Ret {| response := response_text; debug := debug; evaluation := evaluation |})%prog.

Definition retrieval_turn (self : t) (session_id query : string)
           (include_history evaluate : bool) : prog chat_result :=
  (let desired_k := RETRIEVE_K self in
   conversation_context <-
     (if include_history then call (GetConversationContext session_id true)
      else Ret "") ;;
   let original_query := query in
   query <-
     (if include_history && negb (String.eqb conversation_context "")
      then rewrite_query_with_context query conversation_context
      else Ret query) ;;
   let query_tokens := _estimate_tokens query in
   o <- budget_loop (loop_fuel self desired_k) self session_id query
          include_history desired_k conversation_context 0 ;;
   match o with
   | None => Raise (Exception "context budget loop did not finish")
   | Some b =>
       let k := final_k b in
       let conversation_context := final_conversation_context b in
       let retrieved_context := final_retrieved_context b in
       response_text <- generate_response query retrieved_context conversation_context ;;
       let changed := negb (String.eqb query original_query) in
       let debug :=
         {| conversation_context_preview := slice_to conversation_context 1000;
            retrieved_context_preview := slice_to retrieved_context 2000;
            tokens :=
              {| te_conversation := _estimate_tokens conversation_context;
                 te_retrieved := _estimate_tokens retrieved_context;
                 te_query := query_tokens;
                 te_total_context_allowed := available_context_tokens self |};
            used_k := k;
            note := None;
            rewrite :=
              Some {| query_rewritten := changed;
                      original_query := if changed then Some original_query else None;
                      rewritten_query := if changed then Some query else None |} |} in
       (if include_history
        then call (AddExchange session_id query response_text debug)
        else
          call (InsertOne {| msg_session_id := session_id; msg_sender := "user";
                             msg_text := query;
                             msg_debug :=
                               DebugRetrievedPreview (slice_to retrieved_context 500) |}) ;;
          call (InsertOne {| msg_session_id := session_id; msg_sender := "assistant";
                             msg_text := response_text;
                             msg_debug := DebugTurn debug |})) ;;
       evaluation <-
         evaluate_turn self evaluate session_id query response_text
           retrieved_context true ;;
       Ret {| response := response_text; debug := debug; evaluation := evaluation |}
   end)%prog.

Definition chat (self : t) (session_id query : string)
           (include_history evaluate : bool) : prog chat_result :=
  if greeting_shortcut query
  then greeting_turn self session_id query evaluate
  else retrieval_turn self session_id query include_history evaluate.

End RAGPipeline.

(* ====================================================================== *)
(** ** vector_store.py *)
(* ====================================================================== *)

(** The tokenized corpus that [HybridRetriever.__init__] hands to the
    lexical index: the tokens of each document, or the one-word stand-in
    for a document without tokens. *)
Definition tokenized_documents (documents : list string) : list (list string) :=
  map (fun doc =>
         match HybridRetriever.tokenize doc with
         | [] => ["empty"]
         | tokens => tokens
         end) documents.

Module VectorStore.

(** A label that FAISS reports for one neighbour: the position of a stored
    vector, or the padding label -1 when fewer neighbours exist than were
    asked for. *)
Inductive label : Type :=
| Hit (idx : nat)
| Padding.

(** The embedding model and the index library.  [embed] is
    [model.encode] followed by [faiss.normalize_L2]; [index_search] is
    [index.search] on the stored vectors, as the pairs of
    [zip(D[0], I[0])]. *)
Record backend : Type := {
  vector : Type;
  embed : string -> vector;
  index_search : list vector -> vector -> Z -> list (Q * label)
}.

(** The store object: [index] is [None] until vectors are added or an
    index is read from disk, and holds the added vectors in order. *)
Record t (B : backend) : Type := {
  index : option (list (vector B));
  documents : list string
}.

Arguments index {B} _.
Arguments documents {B} _.

(** The store right after [__init__]. *)
Definition empty (B : backend) : t B := {| index := None; documents := [] |}.

Definition add_documents {B : backend} (self : t B) (docs : list string) : t B :=
  match docs with
  | [] => self
  | _ :: _ =>
      {| index :=
           Some ((match index self with Some v => v | None => [] end)
                 ++ map (embed B) docs)%list;
         documents := (documents self ++ docs)%list |}
  end.

(** One pass of the loop over [zip(D[0], I[0])]: the test
    [idx < len(documents)] lets the padding label through, and
    [documents[-1]] is the last document. *)
Definition lookup {B : backend} (self : t B) (hit : Q * label) : list (string * Q) :=
  let (score, idx) := hit in
  match idx with
  | Hit i =>
      match nth_error (documents self) i with
      | Some doc => [(doc, score)]
      | None => []
      end
  | Padding => [(last (documents self) "", score)]
  end.

Definition search {B : backend} (self : t B) (query : string) (k : Z)
  : list (string * Q) :=
  match index self with
  | None => []
  | Some stored =>
      if (List.length (documents self) =? 0)%nat then []
      else flat_map (lookup self) (index_search B stored (embed B query) k)
  end.

(** The two files of the index directory: what each holds, if it exists,
    and whether reading it raises.  A file that [save] writes is
    readable. *)
Record files (B : backend) : Type := {
  faiss_index : option (list (vector B));
  docs_pkl : option (list string);
  faiss_index_unreadable : bool;
  docs_pkl_unreadable : bool
}.

Arguments faiss_index {B} _.
Arguments docs_pkl {B} _.
Arguments faiss_index_unreadable {B} _.
Arguments docs_pkl_unreadable {B} _.

Definition save {B : backend} (self : t B) (fs : files B) : files B :=
  {| faiss_index :=
       match index self with
       | Some stored => Some stored
       | None => faiss_index fs
       end;
     docs_pkl := Some (documents self);
     faiss_index_unreadable :=
       match index self with
       | Some _ => false
       | None => faiss_index_unreadable fs
       end;
     docs_pkl_unreadable := false |}.

(** [load]: the store afterwards, and the returned flag.  Both files must
    exist; the index is read and assigned first, the documents second, and
    an exception of either read ends the call with [False], after what was
    assigned before it. *)
Definition load {B : backend} (self : t B) (fs : files B) : t B * bool :=
  match faiss_index fs, docs_pkl fs with
  | Some stored, Some docs =>
      if faiss_index_unreadable fs then (self, false)
      else if docs_pkl_unreadable fs
           then ({| index := Some stored; documents := documents self |}, false)
           else ({| index := Some stored; documents := docs |}, true)
  | _, _ => (self, false)
  end.

End VectorStore.

(* ====================================================================== *)
(** ** [RAGPipeline.initialize] *)
(* ====================================================================== *)

Module Lifecycle.

(** The parts of the pipeline object that [initialize] reads and writes. *)
Record state (B : VectorStore.backend) : Type := {
  vector_store : VectorStore.t B;
  hybrid_retriever : option HybridRetriever.t;
  is_initialized : bool
}.

Arguments vector_store {B} _.
Arguments hybrid_retriever {B} _.
Arguments is_initialized {B} _.

(** The collaborators of [initialize]: the chunks the document processor
    finds in a folder, the constructor of the lexical index, which may
    raise, and [numpy.argsort]. *)
Record externals : Type := {
  process_documents : string -> list string;
  BM25Okapi : list (list string) -> exn + (list string -> list Q);
  np_argsort : list Q -> list nat
}.

(** [HybridRetriever(vector_store, vector_store.documents)] *)
Definition make_retriever {B : VectorStore.backend} (E : externals)
           (store : VectorStore.t B) : exn + HybridRetriever.t :=
  match BM25Okapi E (tokenized_documents (VectorStore.documents store)) with
  | inl e => inl e
  | inr get_scores =>
      inr {| HybridRetriever.vector_store := VectorStore.search store;
             HybridRetriever.documents := VectorStore.documents store;
             HybridRetriever.bm25 := get_scores;
             HybridRetriever.argsort := np_argsort E |}
  end.

(** [initialize(data_folder, force_rebuild)]: the exception it raises, if
    any, the pipeline afterwards and the files afterwards. *)
Definition initialize {B : VectorStore.backend} (E : externals) (self : state B)
           (fs : VectorStore.files B) (data_folder : string) (force_rebuild : bool)
  : option exn * state B * VectorStore.files B :=
  let (store, loaded) :=
    if force_rebuild then (vector_store self, false)
    else VectorStore.load (vector_store self) fs in
  let built :=
    if loaded then inr (store, fs)
    else
      match process_documents E data_folder with
      | [] => inl (Exception "No documents found in data folder")
      | chunks =>
          let store := VectorStore.add_documents store chunks in
          inr (store, VectorStore.save store fs)
      end in
  match built with
  | inl e =>
      (Some e,
       {| vector_store := store;
          hybrid_retriever := hybrid_retriever self;
          is_initialized := is_initialized self |},
       fs)
  | inr (store, fs) =>
      let hybrid :=
        match VectorStore.documents store with
        | [] => hybrid_retriever self
        | _ :: _ =>
            match make_retriever E store with
            | inr hr => Some hr
            | inl _ => None
            end
        end in
      (None,
       {| vector_store := store;
          hybrid_retriever := hybrid;
          is_initialized := true |},
       fs)
  end.

(** The pipeline object of a turn, from the initialized parts and the
    settings. *)
Definition pipeline {B : VectorStore.backend} (self : state B) (has_evaluator : bool)
           (max_tokens reserved desired_k : Z) : RAGPipeline.t :=
  {| RAGPipeline.vector_store := VectorStore.search (vector_store self);
     RAGPipeline.hybrid_retriever := hybrid_retriever self;
     RAGPipeline.evaluator := has_evaluator;
     RAGPipeline.is_initialized := is_initialized self;
     RAGPipeline.model_max_tokens := max_tokens;
     RAGPipeline.reserved_response_tokens := reserved;
     RAGPipeline.min_k := 1;
     RAGPipeline.RETRIEVE_K := desired_k |}.

End Lifecycle.

(* ====================================================================== *)
(** ** main.py: the chat endpoint *)
(* ====================================================================== *)

Module Service.

(** What the endpoint hands to the web framework: the turn's dictionary,
    or an [HTTPException]. *)
Inductive http_result : Type :=
| Ok (out : chat_result)
| HTTPException (status_code : Z) (detail : string).

(** The second look at [out["evaluation"]]: anything but [None] or a
    dictionary becomes [None]. *)
Definition plain_evaluation (out : chat_result) : chat_result :=
  match evaluation out with
  | PyNone | PyDict _ => out
  | PyOther _ _ =>
      {| response := response out; debug := debug out; evaluation := PyNone |}
  end.

(** [POST /chat] *)
Definition chat (rag : RAGPipeline.t) (session_id query : string)
           (include_history evaluate : bool) : prog http_result :=
  if negb (RAGPipeline.is_initialized rag)
  then Ret (HTTPException 400 "RAG not initialized")
  else
    try_catch
      (bind (RAGPipeline.chat rag session_id query include_history evaluate)
         (fun out => Ret (Ok (plain_evaluation out))))
      (fun e => Ret (HTTPException 500 ("Chat processing failed: " ++ str e))).

End Service.

(* ====================================================================== *)
(** ** The collaborators a run contacts *)
(* ====================================================================== *)

Inductive event_kind : Type :=
| Completion
| ContextRead
| SummaryLimit
| ExchangeWrite
| MessageWrite
| Evaluation.

Definition kind_of {X : Type} (ev : event X) : event_kind :=
  match ev with
  | ChatCompletion _ => Completion
  | GetConversationContext _ _ => ContextRead
  | EnsureSummaryLimit _ _ => SummaryLimit
  | AddExchange _ _ _ _ => ExchangeWrite
  | InsertOne _ => MessageWrite
  | EvaluateConversationTurn _ _ _ _ => Evaluation
  end.

(** The collaborators a run contacts, in order. *)
Fixpoint event_log {St A : Type} (h : handler St) (p : prog A) (s : St)
  : list event_kind :=
  match p with
  | Ret _ | Raise _ => []
  | Vis ev k =>
      let (r, s') := h _ ev s in
      kind_of ev :: event_log h (k r) s'
  end.





(* ====================================================================== *)
(** ** Assumptions on collaborators, as used in the statements *)
(* ====================================================================== *)

(** The sum of [weight / (60 + rank + 1)] over the positions [rank],
    counted from [start], at which index [i] stands in [ranked]. *)
Fixpoint rank_sum (weight : Q) (start : nat) (ranked : list nat) (i : nat) : Q :=
  match ranked with
  | [] => 0
  | j :: rest =>
      ((if (j =? i)%nat then HybridRetriever.contribution weight start else 0)
       + rank_sum weight (S start) rest i)%Q
  end.

(** The fused score of corpus index [i] in the words of the specification,
    with one term for every position at which [i] stands in the truncated
    lexical list (weight 1) and in the truncated vector list (weight
    [alpha]). *)
Definition fused_score_spec (hr : HybridRetriever.t) (query : string) (k : Z)
           (alpha : Q) (i : nat) : Q :=
  (rank_sum 1 0 (HybridRetriever.bm25_top hr query k) i
   + rank_sum alpha 0 (HybridRetriever.vector_top hr query k) i)%Q.

(** The term of one source when an index is given a single rank in it:
    nothing when the index is absent from the list, else the contribution
    of a position at which it stands. *)
Definition single_rank_term (weight : Q) (ranked : list nat) (i : nat) (term : Q)
  : Prop :=
  (~ In i ranked /\ term == 0)%Q \/
  (exists rank : nat,
      nth_error ranked rank = Some i /\
      term == HybridRetriever.contribution weight rank)%Q.

(** A fused score with one term per source. *)
Definition single_rank_score (hr : HybridRetriever.t) (query : string) (k : Z)
           (alpha : Q) (i : nat) (score : Q) : Prop :=
  exists lexical vector : Q,
    single_rank_term 1 (HybridRetriever.bm25_top hr query k) i lexical /\
    single_rank_term alpha (HybridRetriever.vector_top hr query k) i vector /\
    (score == lexical + vector)%Q.

(** Descending order of the scores of a result list. *)
Definition score_descending {A : Type} (results : list (A * Q)) : Prop :=
  StronglySorted (fun a b => (snd b <= snd a)%Q) results.

(** [p] returns from every state of the collaborators, with a value in
    [P]. *)
Definition returns {St A : Type} (h : handler St) (p : prog A) (P : A -> Prop)
  : Prop :=
  forall s, exists a s', run h p s = (inr a, s') /\ P a.

(** The phrases of [greeting_patterns] that have at most two words. *)
Definition reachable_patterns : list string :=
  ["good morning"; "good night"; "good evening"; "thank you"].

(** What one pass of the budget loop at [k] can do. *)
Definition step_post (self : RAGPipeline.t) (query : string) (k : Z)
           (o : RAGPipeline.step_outcome) : Prop :=
  match o with
  | RAGPipeline.Break e k' c r =>
      k' = k /\
      (e <> RAGPipeline.HardTruncation ->
       (RAGPipeline.tokens_total c r (RAGPipeline._estimate_tokens query)
        <= RAGPipeline.available_context_tokens self)%Z) /\
      (e = RAGPipeline.HardTruncation -> (k <= RAGPipeline.min_k self)%Z)
  | RAGPipeline.Continue k' c =>
      (RAGPipeline.min_k self < k)%Z /\
      k' = Z.max (RAGPipeline.min_k self) (k - 1)
  end.

(** What the budget loop guarantees when it starts at [k] with [done]
    passes behind it. *)
Definition loop_post (self : RAGPipeline.t) (query : string) (k : Z) (done : nat)
           (o : option RAGPipeline.budget_result) : Prop :=
  exists b : RAGPipeline.budget_result,
    o = Some b /\
    (RAGPipeline.iterations b
     <= done + S (Z.to_nat (k - RAGPipeline.min_k self)))%nat /\
    (RAGPipeline.min_k self <= k ->
     RAGPipeline.min_k self <= RAGPipeline.final_k b <= k)%Z /\
    (RAGPipeline.how b <> RAGPipeline.HardTruncation ->
     (RAGPipeline.tokens_total
        (RAGPipeline.final_conversation_context b)
        (RAGPipeline.final_retrieved_context b)
        (RAGPipeline._estimate_tokens query)
      <= RAGPipeline.available_context_tokens self)%Z) /\
    (RAGPipeline.how b = RAGPipeline.HardTruncation ->
     (RAGPipeline.final_k b <= RAGPipeline.min_k self)%Z).

(** The text generator raises [e] at every request. *)
Definition generator_fails {St : Type} (h : handler St) (e : exn) : Prop :=
  forall (req : completion_request) (s : St),
    fst (h _ (ChatCompletion req) s) = inl e.

(** [out] is the error text of [generate_response] for whatever exception
    the failing generator raises. *)
Definition error_response {St : Type} (h : handler St) (out : string) : Prop :=
  forall e : exn, generator_fails h e -> out = "Error generating response: " ++ str e.

(** The conversation store answers every read and accepts every write. *)
Definition store_answers {St : Type} (h : handler St) : Prop :=
  (forall (session_id : string) (client : bool) (s : St),
      exists c, fst (h _ (GetConversationContext session_id client) s) = inr c) /\
  (forall (session_id query response_text : string) (d : debug_info) (s : St),
      fst (h _ (AddExchange session_id query response_text d) s) = inr tt) /\
  (forall (doc : message_doc) (s : St),
      fst (h _ (InsertOne doc) s) = inr tt).

(** Every character of [s] passes the test [p]. *)
Fixpoint every_char (p : ascii -> bool) (s : string) : bool :=
  match s with
  | EmptyString => true
  | String c s' => p c && every_char p s'
  end.

(** The test for a character that is not white space. *)
Definition not_space (c : ascii) : bool := negb (PyStr.isspace c).

(** The test for a character that [str.lower] leaves alone. *)
Definition lower_fixed (c : ascii) : bool := Ascii.eqb (PyStr.lower_char c) c.

(** The order in which the indices of a list are first met. *)
Definition seen_order (indices : list nat) : list nat :=
  fold_left
    (fun acc i => if existsb (Nat.eqb i) acc then acc else (acc ++ [i])%list)
    indices [].

(** The dictionary entry that a first contribution creates. *)
Definition first_entry (weight : Q) (e : nat * nat) : nat * Q :=
  (snd e, (0 + HybridRetriever.contribution weight (fst e))%Q).

(** A store whose index holds the embeddings of its documents, in order. *)
Definition aligned {B : VectorStore.backend} (store : VectorStore.t B) : Prop :=
  match VectorStore.index store with
  | Some stored => stored = map (VectorStore.embed B) (VectorStore.documents store)
  | None => VectorStore.documents store = []
  end.

(** Whenever [p] returns, its value is in [P]. *)
Definition ensures {St A : Type} (h : handler St) (p : prog A) (P : A -> Prop)
  : Prop :=
  forall s a s', run h p s = (inr a, s') -> P a.

(** [p] raises [e] from every state of the collaborators. *)
Definition raises {St A : Type} (h : handler St) (p : prog A) (e : exn) : Prop :=
  forall s, exists s', run h p s = (inl e, s').






(* ====================================================================== *)
(** ** Concrete collaborators, for examples *)
(* ====================================================================== *)

Module Examples.

(** A vector store that ranks a fixed list of (text, similarity) pairs and
    hands back its first [k] entries. *)
Definition fixed_store (ranking : list (string * Q)) : string -> Z -> list (string * Q) :=
  fun _ k => list_slice_to ranking k.

(** An arg-sort as [numpy.argsort] may compute it: ascending, and here the
    earlier index first among equal values. *)
Fixpoint insert_asc (x : nat * Q) (l : list (nat * Q)) : list (nat * Q) :=
  match l with
  | [] => [x]
  | y :: l' => if Qle_bool (snd x) (snd y) then x :: l else y :: insert_asc x l'
  end.

Definition stable_argsort (values : list Q) : list nat :=
  map fst (fold_right insert_asc [] (HybridRetriever.enumerate values)).

(** The lexical scores of an example are given per corpus position. *)
Definition retriever (docs : list string) (lexical : list Q)
           (ranking : list (string * Q)) : HybridRetriever.t :=
  {| HybridRetriever.vector_store := fixed_store ranking;
     HybridRetriever.documents := docs;
     HybridRetriever.bm25 := fun _ => lexical;
     HybridRetriever.argsort := stable_argsort |}.

Definition pipeline (hr : HybridRetriever.t) (max_tokens reserved desired_k : Z)
  : RAGPipeline.t :=
  {| RAGPipeline.vector_store := HybridRetriever.vector_store hr;
     RAGPipeline.hybrid_retriever := Some hr;
     RAGPipeline.evaluator := true;
     RAGPipeline.is_initialized := true;
     RAGPipeline.model_max_tokens := max_tokens;
     RAGPipeline.reserved_response_tokens := reserved;
     RAGPipeline.min_k := 1;
     RAGPipeline.RETRIEVE_K := desired_k |}.

(** The two-passage corpus of the fusion scenario. *)
Definition articles : list string :=
  ["Article 21 protects right to life."; "Article 14 ensures equality."].

Definition articles_retriever : HybridRetriever.t :=
  retriever articles [1; 0]%Q
    [("Article 21 protects right to life.", (7 # 10)%Q);
     ("Article 14 ensures equality.", (3 # 10)%Q)].

(** A corpus in which one chunk occurs twice: the vector store ranks all
    three chunks, and the two equal texts map to the same corpus index. *)
Definition repeated_chunk : list string :=
  ["right to life"; "equality before law"; "equality before law"].

Definition repeated_chunk_retriever : HybridRetriever.t :=
  retriever repeated_chunk [2; 1; 1]%Q
    [("right to life", (9 # 10)%Q);
     ("equality before law", (8 # 10)%Q);
     ("equality before law", (8 # 10)%Q)].



(** Five passages of 300 characters, all well above the score threshold. *)
Definition long_passage (c : string) : string := String.concat "" (repeat c 300).

Definition long_corpus : list string := map long_passage ["a"; "b"; "c"; "d"; "e"].

Definition long_pipeline : RAGPipeline.t :=
  {| RAGPipeline.vector_store := fixed_store (map (fun d => (d, (9 # 10)%Q)) long_corpus);
     RAGPipeline.hybrid_retriever := None;
     RAGPipeline.evaluator := false;
     RAGPipeline.is_initialized := true;
     RAGPipeline.model_max_tokens := 1000;
     RAGPipeline.reserved_response_tokens := 1000;
     RAGPipeline.min_k := 1;
     RAGPipeline.RETRIEVE_K := 5 |}.

(** Collaborators without state: the text generator is unreachable, the
    conversation store answers with [context] and accepts every write, the
    evaluator returns nothing. *)
Definition generator_down (context : string) : handler unit :=
  fun X ev s =>
    match ev in event X return (exn + X) * unit with
    | ChatCompletion _ => (inl (Exception "connection refused"), s)
    | GetConversationContext _ _ => (inr context, s)
    | EnsureSummaryLimit _ _ => (inr tt, s)
    | AddExchange _ _ _ _ => (inr tt, s)
    | InsertOne _ => (inr tt, s)
    | EvaluateConversationTurn _ _ _ _ => (inr PyNone, s)
    end.

(** Collaborators of which the text generator always answers [reply]. *)
Definition generator_says (reply context : string) : handler unit :=
  fun X ev s =>
    match ev in event X return (exn + X) * unit with
    | ChatCompletion _ => (inr reply, s)
    | GetConversationContext _ _ => (inr context, s)
    | EnsureSummaryLimit _ _ => (inr tt, s)
    | AddExchange _ _ _ _ => (inr tt, s)
    | InsertOne _ => (inr tt, s)
    | EvaluateConversationTurn _ _ _ _ => (inr PyNone, s)
    end.



End Examples.

Module MoreExamples.

(** Collaborators of which the conversation store refuses every write. *)
Definition store_refuses (context : string) : handler unit :=
  fun X ev s =>
    match ev in event X return (exn + X) * unit with
    | ChatCompletion _ => (inr "An answer.", s)
    | GetConversationContext _ _ => (inr context, s)
    | EnsureSummaryLimit _ _ => (inr tt, s)
    | AddExchange _ _ _ _ => (inl (Exception "write refused"), s)
    | InsertOne _ => (inl (Exception "write refused"), s)
    | EvaluateConversationTurn _ _ _ _ => (inr (PyOther true "0.8"), s)
    end.

(** An embedding model that keeps the text, and an index that reports its
    vectors in stored order with similarity 1/2, padded with the label -1
    up to the [k] asked for. *)
Definition toy_backend : VectorStore.backend :=
  {| VectorStore.vector := string;
     VectorStore.embed := fun text => text;
     VectorStore.index_search :=
       fun stored _ k =>
         (map (fun i => ((1 # 2)%Q, VectorStore.Hit i))
              (seq 0 (Nat.min (Z.to_nat k) (List.length stored)))
          ++ repeat ((-1)%Q, VectorStore.Padding)
               (Z.to_nat k - List.length stored))%list |}.

(** Collaborators of [initialize]: the folder "data" holds two chunks, any
    other folder none; the lexical index scores every document 1. *)
Definition toy_externals : Lifecycle.externals :=
  {| Lifecycle.process_documents :=
       fun folder =>
         if String.eqb folder "data"
         then ["Article 21 protects right to life."; "Article 14 ensures equality."]
         else [];
     Lifecycle.BM25Okapi := fun tokenized => inr (fun _ => map (fun _ => 1%Q) tokenized);
     Lifecycle.np_argsort := Examples.stable_argsort |}.

(** The pipeline right after [__init__]. *)
Definition fresh : Lifecycle.state toy_backend :=
  {| Lifecycle.vector_store := VectorStore.empty toy_backend;
     Lifecycle.hybrid_retriever := None;
     Lifecycle.is_initialized := false |}.

(** An index directory without files. *)
Definition no_files : VectorStore.files toy_backend :=
  {| VectorStore.faiss_index := None;
     VectorStore.docs_pkl := None;
     VectorStore.faiss_index_unreadable := false;
     VectorStore.docs_pkl_unreadable := false |}.


(** The tail shared by two conversation contexts of 801 characters that
    differ in their first character only. *)
Definition long_tail : string := String.concat "" (repeat "x" 800).

(** The two-article corpus with a vector store that finds nothing. *)
Definition lexical_only_retriever : HybridRetriever.t :=
  Examples.retriever Examples.articles [1; 0]%Q [].

End MoreExamples.

(* ====================================================================== *)
(** ** Properties of the string functions *)
(* ====================================================================== *)

Section StringFacts.

Import PyStr.

Lemma isspace_lower_char (c : ascii) : isspace (lower_char c) = isspace c.
Proof.
  destruct c as [[] [] [] [] [] [] [] []]; vm_compute; reflexivity.
Qed.

Lemma lower_lstrip (s : string) : lower (lstrip s) = lstrip (lower s).
Proof.
  induction s as [|c s IH]; simpl; [reflexivity|].
  rewrite isspace_lower_char.
  destruct (isspace c); [exact IH | reflexivity].
Qed.

Lemma lower_rstrip (s : string) : lower (rstrip s) = rstrip (lower s).
Proof.
  induction s as [|c s IH]; simpl; [reflexivity|].
  rewrite <- IH, isspace_lower_char.
  destruct (rstrip s); simpl; [destruct (isspace c)|]; reflexivity.
Qed.

(** Trimming and lower-casing commute, so the order in which the source
    applies them does not matter. *)
Lemma lower_strip (s : string) : lower (strip s) = strip (lower s).
Proof. unfold strip. now rewrite lower_rstrip, lower_lstrip. Qed.

Lemma mem_true_iff (x : string) (xs : list string) :
  mem x xs = true <-> In x xs.
Proof.
  unfold mem. rewrite existsb_exists. split.
  - intros (y & Hy & E). apply String.eqb_eq in E. now subst.
  - intros H. exists x. split; [assumption | apply String.eqb_refl].
Qed.

End StringFacts.

(* ====================================================================== *)
(** ** Running programs *)
(* ====================================================================== *)

Section RunFacts.

Context {S : Type} (h : handler S).

Lemma run_bind {A B : Type} (p : prog A) (f : A -> prog B) (s : S) :
  run h (bind p f) s =
  match run h p s with
  | (inr a, s') => run h (f a) s'
  | (inl e, s') => (inl e, s')
  end.
Proof.
  revert s. induction p as [a|e|X ev k IH]; intros s; simpl; try reflexivity.
  destruct (h X ev s) as [r s']. apply IH.
Qed.

Lemma run_try_catch {A : Type} (p : prog A) (c : exn -> prog A) (s : S) :
  run h (try_catch p c) s =
  match run h p s with
  | (inr a, s') => (inr a, s')
  | (inl e, s') => run h (c e) s'
  end.
Proof.
  revert s. induction p as [a|e|X ev k IH]; intros s; simpl; try reflexivity.
  destruct (h X ev s) as [r s']. apply IH.
Qed.

Lemma run_call {X : Type} (ev : event X) (s : S) :
  run h (call ev) s = h X ev s.
Proof.
  unfold call. simpl. destruct (h X ev s) as [[e|x] s']; reflexivity.
Qed.

Lemma returns_ret {A : Type} (a : A) (P : A -> Prop) : P a -> returns h (Ret a) P.
Proof. intros H s. exists a, s. now split. Qed.

Lemma returns_bind {A B : Type} (p : prog A) (f : A -> prog B)
      (P : A -> Prop) (Q : B -> Prop) :
  returns h p P -> (forall a, P a -> returns h (f a) Q) -> returns h (bind p f) Q.
Proof.
  intros Hp Hf s. rewrite run_bind.
  destruct (Hp s) as (a & s' & -> & Ha). now apply Hf.
Qed.

Lemma returns_weaken {A : Type} (p : prog A) (P Q : A -> Prop) :
  returns h p P -> (forall a, P a -> Q a) -> returns h p Q.
Proof.
  intros Hp HPQ s. destruct (Hp s) as (a & s' & E & Ha).
  exists a, s'. auto.
Qed.

(** A guarded block whose handler returns cannot raise. *)
Lemma returns_try_catch {A : Type} (p : prog A) (c : exn -> prog A) :
  (forall e, returns h (c e) (fun _ => True)) ->
  returns h (try_catch p c) (fun _ => True).
Proof.
  intros Hc s. rewrite run_try_catch.
  destruct (run h p s) as [[e|a] s'].
  - apply Hc.
  - exists a, s'. now split.
Qed.

End RunFacts.

(* ====================================================================== *)
(** ** Turn classification *)
(* ====================================================================== *)

Section Classification.

Import PyStr RAGPipeline.

(** What [is_greeting] accepts: the trimmed, lower-cased query is one of the
    greeting words or one of the two-word polite phrases. *)
Lemma is_greeting_iff (query : string) :
  is_greeting query = true <->
  In (lower (strip query)) (greeting_words ++ reachable_patterns).
Proof.
  unfold is_greeting. split.
  - destruct (String.eqb query ""); [discriminate|].
    set (q := lower (strip query)).
    destruct ((List.length (split q) =? 1)%nat && mem q greeting_words) eqn:E1.
    + intros _. apply andb_true_iff in E1 as [_ E1].
      apply mem_true_iff in E1. apply in_or_app. now left.
    + destruct ((List.length (split q) <=? 2)%nat && mem q greeting_patterns) eqn:E2;
        [|discriminate].
      intros _. apply andb_true_iff in E2 as [L E2].
      apply mem_true_iff in E2. apply in_or_app. right.
      simpl in E2.
      destruct E2 as [E|[E|[E|[E|[E|[]]]]]]; rewrite <- E; simpl; auto.
      rewrite <- E in L. vm_compute in L. discriminate.
  - intros H.
    destruct (String.eqb_spec query "") as [->|_].
    + vm_compute in H. repeat (destruct H as [H|H]; [discriminate|]). destruct H.
    + set (q := lower (strip query)) in *.
      simpl in H.
      repeat (destruct H as [H|H]; [rewrite <- H; reflexivity|]).
      destruct H.
Qed.

(** [chat] takes the greeting path exactly when its guard holds. *)
Lemma chat_greeting_path (self : t) (session_id query : string) (ih ev : bool) :
  greeting_shortcut query = true ->
  chat self session_id query ih ev = greeting_turn self session_id query ev.
Proof. unfold chat. now intros ->. Qed.

Lemma chat_retrieval_path (self : t) (session_id query : string) (ih ev : bool) :
  greeting_shortcut query = false ->
  chat self session_id query ih ev = retrieval_turn self session_id query ih ev.
Proof. unfold chat. now intros ->. Qed.

(** C4 (the code departs from the specification).  The query "thanks a lot" is in
    the list of polite phrases and is not informational, yet [is_greeting]
    rejects it, because the phrase has three words and the list is only
    consulted for queries of at most two words; the turn runs the
    retrieval flow. *)
Theorem thanks_a_lot_takes_retrieval_flow :
  mem "thanks a lot" greeting_patterns = true /\
  is_informational "thanks a lot" = false /\
  is_greeting "thanks a lot" = false /\
  forall (self : t) (session_id : string) (ih ev : bool),
    chat self session_id "thanks a lot" ih ev =
    retrieval_turn self session_id "thanks a lot" ih ev.
Proof.
  repeat split; try reflexivity.
Qed.

End Classification.

(* ====================================================================== *)
(** ** The query-rewrite heuristic *)
(* ====================================================================== *)

Section Rewrite.

Import PyStr RAGPipeline.

(** C6.  A query that, trimmed and lower-cased, starts with one of the
    informational starter phrases is returned as it is, and the heuristic
    is then a bare return: no request reaches the text generator, whatever
    the conversation context and however the collaborators behave. *)
Theorem starter_query_not_rewritten
  (query conversation_context starter : string) :
  In starter informational_starters ->
  startswith (lower (strip query)) starter = true ->
  rewrite_query_with_context query conversation_context = Ret query /\
  forall (S : Type) (h : handler S) (s : S),
    completions h (rewrite_query_with_context query conversation_context) s = [].
Proof.
  intros Hin Hst.
  assert (E : rewrite_query_with_context query conversation_context = Ret query).
  { unfold rewrite_query_with_context.
    destruct (String.eqb conversation_context ""); [reflexivity|].
    destruct (15 <? word_count query)%nat; [reflexivity|].
    replace (existsb _ informational_starters) with true; [reflexivity|].
    symmetry. apply existsb_exists. exists starter. split; [assumption|].
    now rewrite <- lower_strip. }
  split; [exact E|]. intros S h s. now rewrite E.
Qed.

(** The query of the precedence scenario: it starts with "explain" and
    contains the stand-alone word "that", and it is not rewritten. *)
Lemma explain_that_article_not_rewritten :
  Re.search (Re.word "that") (lower "explain that article") = true /\
  rewrite_query_with_context "explain that article" "Q: what is Article 21?" =
  Ret "explain that article".
Proof.
  split; [reflexivity|].
  apply (starter_query_not_rewritten
           "explain that article" "Q: what is Article 21?" "explain").
  - simpl. auto.
  - reflexivity.
Defined.

(** C7.  Whatever the collaborators answer, the heuristic returns, and its
    result is the original query or the trimmed text of the generator's
    answer, the latter only when that text has at most twice as many words
    as the query; when the generation call raises, the result is the
    original query. *)
Theorem rewrite_returns_query_or_bounded_rewrite
  (query conversation_context : string) (S : Type) (h : handler S) (s : S) :
  exists (out : string) (s' : S),
    run h (rewrite_query_with_context query conversation_context) s = (inr out, s') /\
    (out = query \/
     exists content : string,
       fst (h _ (ChatCompletion (rewrite_request query conversation_context)) s)
       = inr content /\
       out = strip content /\
       (word_count out <= 2 * word_count query)%nat) /\
    (forall e : exn,
       fst (h _ (ChatCompletion (rewrite_request query conversation_context)) s)
       = inl e -> out = query).
Proof.
  unfold rewrite_query_with_context.
  destruct (String.eqb conversation_context "");
    [exists query, s; repeat split; auto|].
  destruct (15 <? word_count query)%nat;
    [exists query, s; repeat split; auto|].
  destruct (existsb _ informational_starters);
    [exists query, s; repeat split; auto|].
  destruct (existsb _ specific_legal_terms);
    [exists query, s; repeat split; auto|].
  destruct (negb _);
    [exists query, s; repeat split; auto|].
  rewrite run_try_catch, run_bind, run_call.
  destruct (h _ (ChatCompletion (rewrite_request query conversation_context)) s)
    as [[e|content] s1] eqn:Eh; simpl.
  - exists query, s1. repeat split; auto.
  - destruct (word_count query * 2 <? word_count (strip content))%nat eqn:Ew; simpl.
    + exists query, s1. repeat split; auto.
    + exists (strip content), s1. split; [reflexivity|]. split.
      * right. exists content. repeat split.
        apply Nat.ltb_ge in Ew. lia.
      * intros e He. discriminate.
Qed.

End Rewrite.

(* ====================================================================== *)
(** ** The context budget loop *)
(* ====================================================================== *)

Section Budget.

Import PyStr RAGPipeline.

Context {St : Type} (h : handler St).
Variables (self : t) (session_id query : string) (include_history : bool).

Let available : Z := available_context_tokens self.
Let query_tokens : Z := _estimate_tokens query.

(** The compaction attempt never raises. *)
Lemma refresh_summary_returns (s : St) :
  exists (r : option string) (s' : St),
    run h (refresh_summary session_id) s = (inr r, s').
Proof.
  unfold refresh_summary. simpl.
  destruct (h _ (EnsureSummaryLimit session_id 500) s) as [[e|[]] s1]; simpl.
  - now exists None, s1.
  - destruct (h _ (GetConversationContext session_id false) s1) as [[e|c] s2]; simpl.
    + now exists None, s2.
    + now exists (Some c), s2.
Qed.

Lemma loop_step_returns (k : Z) (conversation_context : string) :
  returns h (loop_step self session_id query include_history k conversation_context)
    (step_post self query k).
Proof.
  intros s. unfold loop_step.
  fold available. fold query_tokens.
  set (retrieved := retrieve_context self query k).
  destruct (tokens_total conversation_context retrieved query_tokens <=? available)%Z
    eqn:E0.
  { exists (Break WithinBudget k conversation_context retrieved), s.
    split; [reflexivity|]. simpl. repeat split.
    - intros _. now apply Z.leb_le.
    - discriminate. }
  rewrite run_bind.
  assert (Hr : exists r s1,
             run h (if include_history then refresh_summary session_id else Ret None) s
             = (inr r, s1)).
  { destruct include_history; [apply refresh_summary_returns|].
    now exists None, s. }
  destruct Hr as (r & s1 & ->).
  set (conv := match r with Some c => c | None => conversation_context end).
  set (fits := match r with
               | Some _ => (tokens_total conv retrieved query_tokens <=? available)%Z
               | None => false
               end).
  destruct fits eqn:Ef.
  { exists (Break WithinBudgetAfterSummary k conv retrieved), s1.
    split; [reflexivity|]. simpl. repeat split.
    - intros _. subst fits. destruct r; [now apply Z.leb_le | discriminate].
    - discriminate. }
  destruct (min_k self <? k)%Z eqn:Ek.
  { exists (Continue (Z.max (min_k self) (k - 1)) conv), s1.
    split; [reflexivity|]. simpl. split; [now apply Z.ltb_lt | reflexivity]. }
  destruct (hard_truncate self query_tokens conv retrieved) as [c' r'] eqn:Eh.
  exists (Break HardTruncation k c' r'), s1.
  split; [simpl; reflexivity|]. simpl. repeat split.
  - intros C. now contradiction C.
  - intros _. apply Z.ltb_ge in Ek. exact Ek.
Qed.

(** Enough fuel: the loop reaches a [break] within
    [1 + (k - min_k)] passes. *)
Lemma budget_loop_returns (fuel : nat) :
  forall (k : Z) (conversation_context : string) (done : nat),
    (Z.to_nat (k - min_k self) < fuel)%nat ->
    returns h
      (budget_loop fuel self session_id query include_history k
         conversation_context done)
      (loop_post self query k done).
Proof.
  induction fuel as [|fuel IH]; intros k conv done Hfuel; [lia|].
  cbn [budget_loop].
  apply returns_bind with (P := step_post self query k).
  - apply loop_step_returns.
  - intros [e k' c r | k' c] Hpost; simpl in Hpost.
    + destruct Hpost as (-> & Hfit & Hmin).
      apply returns_ret. eexists. split; [reflexivity|]. simpl.
      repeat split; try lia; auto.
    + destruct Hpost as (Hk & ->).
      eapply returns_weaken.
      * apply IH. lia.
      * intros o (b & -> & Hit & Hrange & Hfit & Hmin).
        exists b. split; [reflexivity|]. repeat split; try lia; auto.
Qed.

End Budget.

(** C1.  Started at [desired_k >= min_k] with enough fuel, and whatever the
    collaborators answer, the budget loop leaves through a [break] after at
    most [(desired_k - min_k + 1) + 2] passes; unless it leaves through the
    hard-truncation branch, the total recomputed from the final
    conversation and retrieved contexts is within the available tokens;
    and the hard-truncation branch is only taken at [k = min_k]. *)
Theorem budget_loop_terminates_within_budget
  (St : Type) (h : handler St) (s : St) (self : RAGPipeline.t)
  (session_id query conversation_context : string) (include_history : bool)
  (desired_k : Z) (fuel : nat) :
  (RAGPipeline.min_k self <= desired_k)%Z ->
  (RAGPipeline.loop_fuel self desired_k <= fuel)%nat ->
  exists (b : RAGPipeline.budget_result) (s' : St),
    run h (RAGPipeline.budget_loop fuel self session_id query include_history
             desired_k conversation_context 0) s = (inr (Some b), s') /\
    (Z.of_nat (RAGPipeline.iterations b)
     <= (desired_k - RAGPipeline.min_k self + 1) + 2)%Z /\
    (RAGPipeline.how b <> RAGPipeline.HardTruncation ->
     (RAGPipeline.tokens_total
        (RAGPipeline.final_conversation_context b)
        (RAGPipeline.final_retrieved_context b)
        (RAGPipeline._estimate_tokens query)
      <= RAGPipeline.available_context_tokens self)%Z) /\
    (RAGPipeline.how b = RAGPipeline.HardTruncation ->
     RAGPipeline.final_k b = RAGPipeline.min_k self).
Proof.
  intros Hk Hfuel. unfold RAGPipeline.loop_fuel in Hfuel.
  destruct (budget_loop_returns h self session_id query include_history fuel
              desired_k conversation_context 0 ltac:(lia) s)
    as (o & s' & Hrun & b & -> & Hit & Hrange & Hfit & Hmin).
  exists b, s'. split; [exact Hrun|]. repeat split.
  - lia.
  - exact Hfit.
  - intros E. specialize (Hmin E). specialize (Hrange Hk). lia.
Qed.

(* ====================================================================== *)
(** ** Generation failures *)
(* ====================================================================== *)

Section Generation.

Import PyStr RAGPipeline.

Context {St : Type} (h : handler St).

Lemma returns_call {X : Type} (ev : event X) :
  (forall s, exists x, fst (h _ ev s) = inr x) ->
  returns h (call ev) (fun _ => True).
Proof.
  intros H s. rewrite run_call. destruct (H s) as (x & Hx).
  destruct (h X ev s) as [r s']. simpl in Hx. subst r. now exists x, s'.
Qed.

(** [generate_response] returns whatever the generator does; its result is
    the error text when the generator raises. *)
Lemma generate_response_returns (query context conversation_context : string) (s : St) :
  exists (out : string) (s' : St),
    run h (generate_response query context conversation_context) s = (inr out, s') /\
    forall e : exn,
      fst (h _ (ChatCompletion (response_request query context conversation_context)) s)
      = inl e ->
      out = "Error generating response: " ++ str e.
Proof.
  unfold generate_response. rewrite run_try_catch, run_call.
  destruct (h _ (ChatCompletion (response_request query context conversation_context)) s)
    as [[e|content] s1]; simpl.
  - exists ("Error generating response: " ++ str e), s1. split; [reflexivity|].
    intros e' E. now inversion E.
  - exists content, s1. split; [reflexivity|]. intros e' E. discriminate.
Qed.

Lemma generate_response_error (query context conversation_context : string) :
  returns h (generate_response query context conversation_context) (error_response h).
Proof.
  intros s.
  destruct (generate_response_returns query context conversation_context s)
    as (out & s' & E & He).
  exists out, s'. split; [exact E|]. intros e Hf. apply He, Hf.
Qed.

Lemma rewrite_returns (query conversation_context : string) :
  returns h (rewrite_query_with_context query conversation_context) (fun _ => True).
Proof.
  unfold rewrite_query_with_context. cbv zeta.
  repeat match goal with
         | |- returns _ (if ?c then _ else _) _ => destruct c
         end;
    try (now apply returns_ret).
  apply returns_try_catch. intros e. now apply returns_ret.
Qed.

Lemma evaluate_turn_returns (self : t) (evaluate : bool)
      (session_id query response_text context : string) (keep : bool) :
  returns h (evaluate_turn self evaluate session_id query response_text context keep)
    (fun _ => True).
Proof.
  unfold evaluate_turn. destruct (evaluate && evaluator self).
  - apply returns_try_catch. intros e. now apply returns_ret.
  - now apply returns_ret.
Qed.


Lemma retrieval_turn_returns (self : t) (session_id query : string)
      (include_history evaluate : bool) :
  store_answers h ->
  returns h (retrieval_turn self session_id query include_history evaluate)
    (fun res => error_response h (response res)).
Proof.
  intros (Hget & Hadd & Hins).
  unfold retrieval_turn.
  eapply returns_bind with (P := fun _ => True).
  { destruct include_history.
    - apply returns_call. intros s. apply Hget.
    - now apply returns_ret. }
  intros conversation_context _.
  eapply returns_bind with (P := fun _ => True).
  { destruct (include_history && negb (String.eqb conversation_context "")).
    - apply rewrite_returns.
    - now apply returns_ret. }
  intros query' _.
  eapply returns_bind.
  { apply budget_loop_returns. unfold loop_fuel. lia. }
  intros o (b & -> & _).
  eapply returns_bind; [apply generate_response_error|].
  intros response_text Herr.
  eapply returns_bind with (P := fun _ => True).
  { destruct include_history.
    - apply returns_call. intros s. exists tt. apply Hadd.
    - eapply returns_bind with (P := fun _ => True).
      + apply returns_call. intros s. exists tt. apply Hins.
      + intros _ _. apply returns_call. intros s. exists tt. apply Hins. }
  intros _ _.
  eapply returns_bind; [apply evaluate_turn_returns|].
  intros evaluation _. now apply returns_ret.
Qed.

End Generation.

Section Contacts.

Import PyStr RAGPipeline.

Context {St : Type} (h : handler St).





Ltac answer :=
  match goal with
  | |- context [h ?X ?ev ?s] =>
      let r := fresh "r" in
      let s1 := fresh "s" in
      destruct (h X ev s) as [[r|r] s1]; cbn
  end.





End Contacts.


(* ====================================================================== *)
(** ** Slices and the score threshold *)
(* ====================================================================== *)

Section Slices.

Context {A : Type}.

Lemma firstn_In (m : nat) (xs : list A) (x : A) : In x (firstn m xs) -> In x xs.
Proof.
  revert m. induction xs as [|y xs IH]; intros [|m]; simpl; try tauto.
  intros [E|H]; [now left | right; eapply IH; eassumption].
Qed.

Lemma list_slice_to_firstn (xs : list A) (n : Z) :
  exists m : nat, list_slice_to xs n = firstn m xs.
Proof. unfold list_slice_to. destruct (0 <=? n)%Z; eexists; reflexivity. Qed.

Lemma list_slice_to_nonneg (xs : list A) (n : Z) :
  (0 <= n)%Z -> list_slice_to xs n = firstn (Z.to_nat n) xs.
Proof.
  intros H. unfold list_slice_to. apply Z.leb_le in H. now rewrite H.
Qed.

Lemma list_slice_to_incl (xs : list A) (n : Z) (x : A) :
  In x (list_slice_to xs n) -> In x xs.
Proof.
  destruct (list_slice_to_firstn xs n) as (m & ->). apply firstn_In.
Qed.

Lemma list_slice_to_length (xs : list A) (n : Z) :
  (0 <= n)%Z -> (Z.of_nat (List.length (list_slice_to xs n)) <= n)%Z.
Proof.
  intros H. rewrite list_slice_to_nonneg by assumption.
  pose proof (firstn_le_length (Z.to_nat n) xs).
  rewrite length_firstn. lia.
Qed.

Lemma list_slice_to_nil (n : Z) : list_slice_to (@nil A) n = [].
Proof. destruct (list_slice_to_firstn (@nil A) n) as (m & ->). apply firstn_nil. Qed.


Lemma firstn_NoDup (m : nat) (xs : list A) : NoDup xs -> NoDup (firstn m xs).
Proof.
  revert m. induction xs as [|x xs IH]; intros [|m] H; simpl; try constructor.
  - inversion H; subst. intros C. apply firstn_In in C. contradiction.
  - inversion H; subst. now apply IH.
Qed.

Lemma firstn_StronglySorted (R : A -> A -> Prop) (m : nat) (xs : list A) :
  StronglySorted R xs -> StronglySorted R (firstn m xs).
Proof.
  revert m. induction xs as [|x xs IH]; intros [|m] H; simpl; try constructor.
  - inversion H; subst. now apply IH.
  - inversion H; subst. rewrite Forall_forall in *.
    intros y Hy. apply firstn_In in Hy. auto.
Qed.

End Slices.

Section Threshold.

Import PyStr RAGPipeline.


Lemma above_threshold_iff (score : Q) :
  above_threshold score = true <-> (2 # 10 < score)%Q.
Proof.
  unfold above_threshold, threshold. rewrite negb_true_iff. split.
  - intros H. apply Qnot_le_lt. intros C. apply Qle_bool_iff in C. congruence.
  - intros H. destruct (Qle_bool score (2 # 10)) eqn:E; [|reflexivity].
    apply Qle_bool_iff in E. exfalso. now apply (Qlt_not_le _ _ H).
Qed.

(** C8.  In an initialized pipeline whose retrieval step returned at least
    one result, the retrieved context joins with a blank line exactly the
    returned passages whose score exceeds 0.2, in their order; and when no
    score exceeds 0.2 it joins the first [k] returned passages, whatever
    their scores. *)
Theorem retrieve_context_threshold_or_top_k (self : t) (query : string) (k : Z) :
  is_initialized self = true ->
  retrieve_results self query k <> [] ->
  let results := retrieve_results self query k in
  let passing := filter (fun r => above_threshold (snd r)) results in
  (forall r, In r passing <-> In r results /\ (2 # 10 < snd r)%Q) /\
  ((exists r, In r results /\ (2 # 10 < snd r)%Q) ->
   retrieve_context self query k = join (nl ++ nl) (map fst passing)) /\
  ((forall r, In r results -> ~ (2 # 10 < snd r)%Q) ->
   retrieve_context self query k
   = join (nl ++ nl) (map fst (list_slice_to results k))).
Proof.
  intros Hinit Hne. cbv zeta.
  unfold retrieve_context. rewrite Hinit. simpl.
  remember (retrieve_results self query k) as results eqn:Er.
  remember (filter (fun r => above_threshold (snd r)) results) as passing eqn:Ep.
  assert (Hpass : forall r, In r passing <-> In r results /\ (2 # 10 < snd r)%Q).
  { intros r. subst passing. rewrite filter_In, above_threshold_iff. tauto. }
  clear Ep Er. split; [exact Hpass|]. split.
  - intros (r & Hr & Hs).
    destruct passing as [|p ps] eqn:E.
    + exfalso. apply (Hpass r). now split.
    + reflexivity.
  - intros Hnone.
    destruct passing as [|p ps] eqn:E.
    + simpl. destruct results; [contradiction|reflexivity].
    + exfalso. apply (Hnone p); apply (Hpass p); now left.
Qed.

End Threshold.

(* ====================================================================== *)
(** ** Fusion search *)
(* ====================================================================== *)

(** C3.  For a query without scorable tokens the fusion search is the
    vector search for the top [k]: the same list of passages and scores. *)
Theorem no_scorable_token_is_vector_search
  (hr : HybridRetriever.t) (query : string) (k : Z) (alpha : Q) :
  HybridRetriever.query_tokens query = [] ->
  HybridRetriever.search hr query k alpha
  = HybridRetriever.vector_store hr query k.
Proof.
  intros H. unfold HybridRetriever.search. now rewrite H.
Qed.

Section Dictionary.

Import HybridRetriever.

Lemma dict_get_set (d : dict) (key key' : nat) (v default : Q) :
  dict_get (dict_set d key v) key' default
  = if (key =? key')%nat then v else dict_get d key' default.
Proof.
  induction d as [|[k0 v0] d IH]; simpl.
  - reflexivity.
  - destruct (k0 =? key)%nat eqn:E; simpl.
    + apply Nat.eqb_eq in E. subst k0.
      destruct (key =? key')%nat; reflexivity.
    + rewrite IH. destruct (k0 =? key')%nat eqn:E'; [|reflexivity].
      apply Nat.eqb_eq in E'. subst k0. now rewrite Nat.eqb_sym, E.
Qed.

Lemma dict_set_keys (d : dict) (key key' : nat) (v : Q) :
  In key' (map fst (dict_set d key v)) <-> key' = key \/ In key' (map fst d).
Proof.
  induction d as [|[k0 v0] d IH]; simpl.
  - intuition.
  - destruct (k0 =? key)%nat eqn:E; simpl.
    + apply Nat.eqb_eq in E. subst k0. intuition.
    + rewrite IH. intuition.
Qed.

Lemma dict_set_NoDup (d : dict) (key : nat) (v : Q) :
  NoDup (map fst d) -> NoDup (map fst (dict_set d key v)).
Proof.
  induction d as [|[k0 v0] d IH]; simpl; intros H.
  - constructor; [intros []|constructor].
  - inversion H as [|? ? Hnin Hnd]; subst.
    destruct (k0 =? key)%nat eqn:E; simpl.
    + apply Nat.eqb_eq in E. subst k0. now constructor.
    + constructor; [|now apply IH].
      rewrite dict_set_keys. intros [C|C]; [|contradiction].
      subst k0. now rewrite Nat.eqb_refl in E.
Qed.

Lemma dict_get_In (d : dict) (key : nat) (v default : Q) :
  NoDup (map fst d) -> In (key, v) d -> dict_get d key default = v.
Proof.
  induction d as [|[k0 v0] d IH]; simpl; intros Hnd Hin; [contradiction|].
  inversion Hnd as [|? ? Hnin Hnd']; subst.
  destruct Hin as [E|Hin].
  - inversion E; subst. now rewrite Nat.eqb_refl.
  - destruct (k0 =? key)%nat eqn:E; [|now apply IH].
    apply Nat.eqb_eq in E. subst k0. exfalso. apply Hnin.
    now apply (in_map fst) in Hin.
Qed.


(** The fold of [add_ranks] with ranks counted from [start]. *)
Lemma add_ranks_from_get (weight : Q) (ranked : list nat) :
  forall (start : nat) (d : dict) (i : nat),
    (dict_get
       (fold_left
          (fun d (e : nat * nat) =>
             let (rank, doc_idx) := e in
             dict_set d doc_idx (dict_get d doc_idx 0 + contribution weight rank)%Q)
          (combine (seq start (List.length ranked)) ranked) d) i 0
     == dict_get d i 0 + rank_sum weight start ranked i)%Q.
Proof.
  induction ranked as [|j ranked IH]; intros start d i; simpl.
  - ring.
  - rewrite IH, dict_get_set.
    destruct (j =? i)%nat eqn:E.
    + apply Nat.eqb_eq in E. subst j. ring.
    + ring.
Qed.

Lemma add_ranks_from_keys (weight : Q) (ranked : list nat) :
  forall (start : nat) (d : dict) (i : nat),
    In i (map fst
            (fold_left
               (fun d (e : nat * nat) =>
                  let (rank, doc_idx) := e in
                  dict_set d doc_idx (dict_get d doc_idx 0 + contribution weight rank)%Q)
               (combine (seq start (List.length ranked)) ranked) d))
    <-> In i (map fst d) \/ In i ranked.
Proof.
  induction ranked as [|j ranked IH]; intros start d i; simpl.
  - tauto.
  - rewrite IH, dict_set_keys. intuition.
Qed.

Lemma add_ranks_from_NoDup (weight : Q) (ranked : list nat) :
  forall (start : nat) (d : dict),
    NoDup (map fst d) ->
    NoDup (map fst
             (fold_left
                (fun d (e : nat * nat) =>
                   let (rank, doc_idx) := e in
                   dict_set d doc_idx (dict_get d doc_idx 0 + contribution weight rank)%Q)
                (combine (seq start (List.length ranked)) ranked) d)).
Proof.
  induction ranked as [|j ranked IH]; intros start d H; simpl.
  - exact H.
  - apply IH. now apply dict_set_NoDup.
Qed.

Lemma add_ranks_get (weight : Q) (ranked : list nat) (d : dict) (i : nat) :
  (dict_get (add_ranks weight ranked d) i 0
   == dict_get d i 0 + rank_sum weight 0 ranked i)%Q.
Proof. apply add_ranks_from_get. Qed.

Lemma add_ranks_keys (weight : Q) (ranked : list nat) (d : dict) (i : nat) :
  In i (map fst (add_ranks weight ranked d)) <-> In i (map fst d) \/ In i ranked.
Proof. apply add_ranks_from_keys. Qed.

Lemma add_ranks_NoDup (weight : Q) (ranked : list nat) (d : dict) :
  NoDup (map fst d) -> NoDup (map fst (add_ranks weight ranked d)).
Proof. apply add_ranks_from_NoDup. Qed.

Variables (hr : t) (query : string) (k : Z) (alpha : Q).

Lemma rrf_scores_NoDup : NoDup (map fst (rrf_scores hr query k alpha)).
Proof.
  unfold rrf_scores. apply add_ranks_NoDup, add_ranks_NoDup. constructor.
Qed.

Lemma rrf_scores_get (i : nat) :
  (dict_get (rrf_scores hr query k alpha) i 0
   == fused_score_spec hr query k alpha i)%Q.
Proof.
  unfold rrf_scores, fused_score_spec.
  rewrite !add_ranks_get. simpl. ring.
Qed.

Lemma rrf_scores_In (i : nat) (s : Q) :
  In (i, s) (rrf_scores hr query k alpha) ->
  (s == fused_score_spec hr query k alpha i)%Q.
Proof.
  intros H. rewrite <- rrf_scores_get.
  now rewrite (dict_get_In _ _ s 0 rrf_scores_NoDup H).
Qed.


End Dictionary.

Section Sorting.

Import HybridRetriever.

Lemma insert_desc_perm (x : nat * Q) (l : list (nat * Q)) :
  Permutation (insert_desc x l) (x :: l).
Proof.
  induction l as [|y l IH]; simpl; [reflexivity|].
  destruct (Qle_bool (snd y) (snd x)); [reflexivity|].
  rewrite IH. apply perm_swap.
Qed.

Lemma sorted_desc_perm (l : list (nat * Q)) : Permutation (sorted_desc l) l.
Proof.
  induction l as [|x l IH]; simpl; [reflexivity|].
  rewrite insert_desc_perm. now constructor.
Qed.

Lemma insert_desc_sorted (x : nat * Q) (l : list (nat * Q)) :
  score_descending l -> score_descending (insert_desc x l).
Proof.
  unfold score_descending.
  induction l as [|y l IH]; simpl; intros H.
  - constructor; constructor.
  - inversion H as [|? ? Hs Hall]; subst.
    destruct (Qle_bool (snd y) (snd x)) eqn:E.
    + apply Qle_bool_iff in E. constructor; [assumption|].
      constructor; [assumption|].
      rewrite Forall_forall in *. intros z Hz.
      eapply Qle_trans; [apply Hall, Hz | exact E].
    + assert (L : (snd x <= snd y)%Q).
      { apply Qlt_le_weak, Qnot_le_lt. intros C.
        apply Qle_bool_iff in C. congruence. }
      constructor; [now apply IH|].
      rewrite Forall_forall in *. intros z Hz.
      apply (Permutation_in _ (insert_desc_perm x l)) in Hz.
      destruct Hz as [<-|Hz]; [exact L | now apply Hall].
Qed.

Lemma sorted_desc_sorted (l : list (nat * Q)) : score_descending (sorted_desc l).
Proof.
  induction l as [|x l IH]; simpl.
  - constructor.
  - now apply insert_desc_sorted.
Qed.


Lemma lookup_entries_In (docs : list string) (l : list (nat * Q)) (doc : string) (s : Q) :
  In (doc, s) (flat_map (lookup_entry docs) l) ->
  exists i, In (i, s) l /\ nth_error docs i = Some doc.
Proof.
  rewrite in_flat_map. intros ([i s'] & Hin & Hl). simpl in Hl.
  destruct (nth_error docs i) as [d|] eqn:E; [|contradiction].
  destruct Hl as [Hl|[]]. inversion Hl; subst. eauto.
Qed.

Lemma lookup_entries_length (docs : list string) (l : list (nat * Q)) :
  (List.length (flat_map (lookup_entry docs) l) <= List.length l)%nat.
Proof.
  induction l as [|[i s] l IH]; simpl; [lia|].
  rewrite length_app. destruct (nth_error docs i); simpl; lia.
Qed.

Lemma lookup_entries_sorted (docs : list string) (l : list (nat * Q)) :
  score_descending l -> score_descending (flat_map (lookup_entry docs) l).
Proof.
  unfold score_descending.
  induction l as [|[i s] l IH]; simpl; intros H; [constructor|].
  inversion H as [|? ? Hs Hall]; subst.
  destruct (nth_error docs i) as [d|]; simpl; [|now apply IH].
  constructor; [now apply IH|].
  rewrite Forall_forall in *. intros [d' s'] Hin.
  apply lookup_entries_In in Hin. destruct Hin as (j & Hj & _).
  apply (Hall (j, s') Hj).
Qed.

Lemma search_unfold (hr : t) (query : string) (k : Z) (alpha : Q) :
  query_tokens query <> [] ->
  search hr query k alpha
  = flat_map (lookup_entry (documents hr))
      (list_slice_to (sorted_desc (rrf_scores hr query k alpha)) k).
Proof.
  intros H. unfold search. destruct (query_tokens query); [contradiction|].
  reflexivity.
Qed.

(** Every fused result is the passage of a dictionary entry. *)
Lemma search_In (hr : t) (query : string) (k : Z) (alpha : Q) (doc : string) (s : Q) :
  query_tokens query <> [] ->
  In (doc, s) (search hr query k alpha) ->
  exists i, In (i, s) (rrf_scores hr query k alpha) /\
            nth_error (documents hr) i = Some doc.
Proof.
  intros Ht Hin. rewrite search_unfold in Hin by assumption.
  apply lookup_entries_In in Hin. destruct Hin as (i & Hi & Hd).
  exists i. split; [|assumption].
  apply list_slice_to_incl in Hi.
  now apply (Permutation_in _ (sorted_desc_perm _)) in Hi.
Qed.

End Sorting.

Section RankSums.

Import HybridRetriever.

Local Open Scope Q_scope.

Lemma denominator_pos (rank : nat) : 0 < inject_Z (rrf_k + Z.of_nat rank + 1).
Proof.
  change 0 with (inject_Z 0). rewrite <- Zlt_Qlt. unfold rrf_k. lia.
Qed.

Lemma contribution_nonneg (w : Q) (rank : nat) : 0 <= w -> 0 <= contribution w rank.
Proof.
  intros H. unfold contribution.
  apply Qle_shift_div_l; [apply denominator_pos | now rewrite Qmult_0_l].
Qed.

Lemma contribution_mono (w : Q) (r r' : nat) :
  0 <= w -> (r <= r')%nat -> contribution w r' <= contribution w r.
Proof.
  intros Hw Hr. unfold contribution.
  apply Qle_shift_div_r; [apply denominator_pos|].
  assert (D : inject_Z (rrf_k + Z.of_nat r + 1) <= inject_Z (rrf_k + Z.of_nat r' + 1)).
  { rewrite <- Zle_Qle. lia. }
  pose proof (denominator_pos r) as P.
  set (d := inject_Z (rrf_k + Z.of_nat r + 1)) in *.
  set (d' := inject_Z (rrf_k + Z.of_nat r' + 1)) in *.
  clearbody d d'.
  assert (E : w == (w / d) * d) by (field; lra).
  assert (N : 0 <= w / d) by (apply Qle_shift_div_l; [|rewrite Qmult_0_l]; assumption).
  rewrite E at 1. nra.
Qed.



Lemma rank_sum_absent (w : Q) (ranked : list nat) (i : nat) :
  forall start, ~ In i ranked -> rank_sum w start ranked i == 0.
Proof.
  induction ranked as [|j ranked IH]; intros start H; simpl; [reflexivity|].
  destruct (j =? i)%nat eqn:E.
  - apply Nat.eqb_eq in E. subst j. exfalso. apply H. now left.
  - rewrite IH; [ring|]. intros C. apply H. now right.
Qed.

(** At a position where [i] stands in a list without repetition, the sum
    is the contribution of that position. *)
Lemma rank_sum_at (w : Q) (ranked : list nat) (i : nat) :
  forall start rank,
    NoDup ranked -> nth_error ranked rank = Some i ->
    rank_sum w start ranked i == contribution w (start + rank).
Proof.
  induction ranked as [|j ranked IH]; intros start rank Hnd Hnth.
  - destruct rank; discriminate.
  - inversion Hnd as [|? ? Hnin Hnd']; subst. simpl.
    destruct rank as [|rank]; simpl in Hnth.
    + inversion Hnth; subst. rewrite Nat.eqb_refl, Nat.add_0_r.
      rewrite rank_sum_absent by assumption. ring.
    + destruct (j =? i)%nat eqn:E.
      * apply Nat.eqb_eq in E. subst j. exfalso. apply Hnin.
        eapply nth_error_In; eassumption.
      * rewrite (IH (S start) rank Hnd' Hnth).
        replace (S start + rank)%nat with (start + S rank)%nat by lia. ring.
Qed.


Lemma rank_sum_nonneg (w : Q) (ranked : list nat) (i : nat) :
  forall start, 0 <= w -> 0 <= rank_sum w start ranked i.
Proof.
  induction ranked as [|j ranked IH]; intros start Hw; simpl; [lra|].
  specialize (IH (S start) Hw).
  destruct (j =? i)%nat; [pose proof (contribution_nonneg w start Hw)|]; lra.
Qed.

Lemma rank_sum_single (w : Q) (ranked : list nat) (i : nat) :
  NoDup ranked -> single_rank_term w ranked i (rank_sum w 0 ranked i).
Proof.
  intros Hnd. destruct (in_dec Nat.eq_dec i ranked) as [Hin|Hnin].
  - right. apply In_nth_error in Hin. destruct Hin as (rank & Hnth).
    exists rank. split; [assumption|].
    now rewrite (rank_sum_at w ranked i 0 rank Hnd Hnth).
  - left. split; [assumption | now apply rank_sum_absent].
Qed.

(** When no index repeats within a truncated list, the sum over positions
    has one term per source. *)
Lemma fused_score_spec_single (hr : t) (query : string) (k : Z) (alpha : Q) (i : nat) :
  NoDup (bm25_top hr query k) -> NoDup (vector_top hr query k) ->
  single_rank_score hr query k alpha i (fused_score_spec hr query k alpha i).
Proof.
  intros H1 H2. unfold single_rank_score, fused_score_spec.
  exists (rank_sum 1 0 (bm25_top hr query k) i),
         (rank_sum alpha 0 (vector_top hr query k) i).
  repeat split; try apply rank_sum_single; try assumption; reflexivity.
Qed.


End RankSums.

Section FusionResults.

Import HybridRetriever.

Local Open Scope Q_scope.

Variables (hr : t) (query : string) (k : Z) (alpha : Q).

Lemma lookup_entries_indices (docs : list string) (fused : nat -> Q)
      (l : list (nat * Q)) :
  NoDup (map fst l) ->
  (forall i s, In (i, s) l -> s == fused i) ->
  exists idxs : list nat,
    NoDup idxs /\
    (forall i, In i idxs -> In i (map fst l)) /\
    Forall2 (fun i r => nth_error docs i = Some (fst r) /\ snd r == fused i)
      idxs (flat_map (lookup_entry docs) l).
Proof.
  induction l as [|[i s] l IH]; simpl; intros Hnd Hs.
  - exists []. repeat split; try constructor. intros i [].
  - inversion Hnd as [|? ? Hnin Hnd']; subst.
    destruct (IH Hnd') as (idxs & Hn & Hincl & Hall).
    { intros j t Hj. apply Hs. now right. }
    destruct (nth_error docs i) as [d|] eqn:E; simpl.
    + exists (i :: idxs). repeat split.
      * constructor; [|assumption]. intros C. apply Hnin, Hincl, C.
      * intros j [->|Hj]; [now left | right; now apply Hincl].
      * constructor; [|assumption]. simpl. split; [assumption|].
        apply Hs. now left.
    + exists idxs. repeat split; try assumption.
      intros j Hj. right. now apply Hincl.
Qed.

Lemma sliced_entries_NoDup :
  NoDup (map fst (list_slice_to (sorted_desc (rrf_scores hr query k alpha)) k)).
Proof.
  destruct (list_slice_to_firstn (sorted_desc (rrf_scores hr query k alpha)) k)
    as (m & ->).
  rewrite <- firstn_map. apply firstn_NoDup.
  eapply Permutation_NoDup.
  - apply Permutation_map, Permutation_sym, sorted_desc_perm.
  - apply rrf_scores_NoDup.
Qed.

Lemma sliced_entries_score (i : nat) (s : Q) :
  In (i, s) (list_slice_to (sorted_desc (rrf_scores hr query k alpha)) k) ->
  s == fused_score_spec hr query k alpha i.
Proof.
  intros H. apply list_slice_to_incl in H.
  apply (Permutation_in _ (sorted_desc_perm _)) in H.
  now apply rrf_scores_In.
Qed.

Lemma sliced_entries_sorted :
  score_descending (list_slice_to (sorted_desc (rrf_scores hr query k alpha)) k).
Proof.
  destruct (list_slice_to_firstn (sorted_desc (rrf_scores hr query k alpha)) k)
    as (m & ->).
  apply firstn_StronglySorted, sorted_desc_sorted.
Qed.

Lemma sorted_entries_keys (i : nat) :
  In i (map fst (sorted_desc (rrf_scores hr query k alpha)))
  <-> In i (bm25_top hr query k) \/ In i (vector_top hr query k).
Proof.
  assert (P : Permutation (map fst (sorted_desc (rrf_scores hr query k alpha)))
                (map fst (rrf_scores hr query k alpha)))
    by apply Permutation_map, sorted_desc_perm.
  split.
  - intros H. apply (Permutation_in _ P) in H.
    unfold rrf_scores in H. rewrite !add_ranks_keys in H. simpl in H. tauto.
  - intros H. apply (Permutation_in _ (Permutation_sym P)).
    unfold rrf_scores. rewrite !add_ranks_keys. simpl. tauto.
Qed.

Lemma lookup_entries_all_valid (docs : list string) (l : list (nat * Q)) :
  (forall i, In i (map fst l) -> (i < List.length docs)%nat) ->
  List.length (flat_map (lookup_entry docs) l) = List.length l.
Proof.
  induction l as [|[i s] l IH]; simpl; intros H; [reflexivity|].
  rewrite length_app, IH by (intros j Hj; apply H; now right).
  destruct (nth_error docs i) eqn:E; [reflexivity|].
  apply nth_error_None in E. specialize (H i (or_introl eq_refl)). lia.
Qed.

(** C2, as the code has it.  For a query with a scorable token and
    [k >= 0], the candidates of the fusion search are the corpus indices
    that stand in the truncated lexical list or in the truncated vector
    list, each taken once, and the fused score of an index is the sum of
    [1 / (60 + rank + 1)] over every position [rank] at which it stands in
    the truncated lexical list, plus the sum of [alpha / (60 + rank + 1)]
    over every position at which it stands in the truncated vector list.
    The search puts all candidates in descending order of fused score and
    returns the passages of the first [k] of them, each with its fused
    score; so it returns [min k n] results when all [n] candidates are
    positions of the corpus.  The result is in descending order of score,
    has at most [k] entries, and all its passages are in the corpus. *)
Theorem fused_results_sum_over_positions :
  query_tokens query <> [] ->
  (0 <= k)%Z ->
  (exists entries : list (nat * Q),
      NoDup (map fst entries) /\
      (forall i, In i (map fst entries)
                 <-> In i (bm25_top hr query k) \/ In i (vector_top hr query k)) /\
      (forall i s, In (i, s) entries -> s == fused_score_spec hr query k alpha i) /\
      score_descending entries /\
      search hr query k alpha
      = flat_map (lookup_entry (documents hr)) (firstn (Z.to_nat k) entries) /\
      ((forall i, In i (map fst entries) -> (i < List.length (documents hr))%nat) ->
       List.length (search hr query k alpha)
       = Nat.min (Z.to_nat k) (List.length entries))) /\
  (exists idxs : list nat,
      NoDup idxs /\
      Forall2 (fun i r =>
                 nth_error (documents hr) i = Some (fst r) /\
                 snd r == fused_score_spec hr query k alpha i)
        idxs (search hr query k alpha)) /\
  score_descending (search hr query k alpha) /\
  (Z.of_nat (List.length (search hr query k alpha)) <= k)%Z /\
  (forall doc s, In (doc, s) (search hr query k alpha) -> In doc (documents hr)).
Proof.
  intros Ht Hk. rewrite search_unfold by assumption.
  split; [|repeat split].
  - exists (sorted_desc (rrf_scores hr query k alpha)).
    split; [|split; [|split; [|split; [|split]]]].
    + eapply Permutation_NoDup.
      * apply Permutation_map, Permutation_sym, sorted_desc_perm.
      * apply rrf_scores_NoDup.
    + apply sorted_entries_keys.
    + intros i s Hin.
      apply (Permutation_in _ (sorted_desc_perm _)) in Hin.
      now apply rrf_scores_In.
    + apply sorted_desc_sorted.
    + now rewrite list_slice_to_nonneg.
    + intros Hvalid. rewrite list_slice_to_nonneg by assumption.
      rewrite lookup_entries_all_valid.
      * apply length_firstn.
      * intros i Hi. apply Hvalid.
        rewrite <- firstn_map in Hi. eapply firstn_In. eassumption.
  - destruct (lookup_entries_indices (documents hr)
                (fused_score_spec hr query k alpha)
                (list_slice_to (sorted_desc (rrf_scores hr query k alpha)) k)
                sliced_entries_NoDup sliced_entries_score)
      as (idxs & Hn & _ & Hall).
    exists idxs. now split.
  - apply lookup_entries_sorted, sliced_entries_sorted.
  - pose proof (lookup_entries_length (documents hr)
                  (list_slice_to (sorted_desc (rrf_scores hr query k alpha)) k)).
    pose proof (list_slice_to_length (sorted_desc (rrf_scores hr query k alpha)) k Hk).
    lia.
  - intros doc s Hin. apply lookup_entries_In in Hin.
    destruct Hin as (i & _ & Hd). eapply nth_error_In; eassumption.
Qed.


End FusionResults.

Section RankDominance.

Import HybridRetriever.

Local Open Scope Q_scope.






Variables (hr : t) (query : string) (k : Z) (alpha : Q) (i : nat).

Hypothesis k_pos : (1 <= k)%Z.
Hypothesis alpha_pos : 0 < alpha.
Hypothesis lexical_first : hd_error (bm25_ranked hr query) = Some i.
Hypothesis vector_first : hd_error (vector_ranked hr query) = Some i.
Hypothesis lexical_distinct : NoDup (bm25_top hr query k).
Hypothesis vector_distinct : NoDup (vector_top hr query k).






End RankDominance.



(* ====================================================================== *)
(** ** The statements on concrete inputs *)
(* ====================================================================== *)

Section Instances.

Import Examples.


(** C1 on a pipeline with 256 available tokens and five passages of 300
    characters: the loop leaves within the bound. *)
Lemma budget_loop_on_long_corpus :
  (RAGPipeline.min_k long_pipeline <= 5)%Z /\
  (RAGPipeline.loop_fuel long_pipeline 5 <= 5)%nat /\
  exists (b : RAGPipeline.budget_result) (s' : unit),
    run (generator_down "")
      (RAGPipeline.budget_loop 5 long_pipeline "s1" "what is life" true 5 "" 0) tt
    = (inr (Some b), s') /\
    (Z.of_nat (RAGPipeline.iterations b)
     <= (5 - RAGPipeline.min_k long_pipeline + 1) + 2)%Z /\
    (RAGPipeline.how b <> RAGPipeline.HardTruncation ->
     (RAGPipeline.tokens_total
        (RAGPipeline.final_conversation_context b)
        (RAGPipeline.final_retrieved_context b)
        (RAGPipeline._estimate_tokens "what is life")
      <= RAGPipeline.available_context_tokens long_pipeline)%Z) /\
    (RAGPipeline.how b = RAGPipeline.HardTruncation ->
     RAGPipeline.final_k b = RAGPipeline.min_k long_pipeline).
Proof.
  split; [simpl; lia|]. split; [vm_compute; lia|].
  apply (budget_loop_terminates_within_budget unit (generator_down "") tt
           long_pipeline "s1" "what is life" "" true 5 5).
  - simpl. lia.
  - vm_compute. lia.
Defined.

(** The scenario of two forced decrements: the loop starts at 5 and leaves
    with [k = 3] after three passes. *)
Example budget_loop_two_decrements :
  exists b,
    fst (run (generator_down "")
           (RAGPipeline.budget_loop 5 long_pipeline "s1" "what is life" true 5 "" 0) tt)
    = inr (Some b) /\
    RAGPipeline.how b = RAGPipeline.WithinBudget /\
    RAGPipeline.final_k b = 3%Z /\
    RAGPipeline.iterations b = 3%nat.
Proof. eexists. split; [vm_compute; reflexivity|]. repeat split. Qed.

(** C2 on the two-article corpus: both indices are candidates, and the two
    passages come back in descending order of fused score. *)
Lemma fused_results_on_articles :
  HybridRetriever.query_tokens "life" <> [] /\
  (0 <= 5)%Z /\
  (exists entries : list (nat * Q),
      NoDup (map fst entries) /\
      (forall i, In i (map fst entries)
                 <-> In i (HybridRetriever.bm25_top articles_retriever "life" 5)
                     \/ In i (HybridRetriever.vector_top articles_retriever "life" 5)) /\
      (forall i s, In (i, s) entries ->
                   (s == fused_score_spec articles_retriever "life" 5 (9 # 10) i)%Q) /\
      score_descending entries /\
      HybridRetriever.search articles_retriever "life" 5 (9 # 10)
      = flat_map (HybridRetriever.lookup_entry
                    (HybridRetriever.documents articles_retriever))
          (firstn (Z.to_nat 5) entries)) /\
  score_descending (HybridRetriever.search articles_retriever "life" 5 (9 # 10)) /\
  (Z.of_nat (List.length (HybridRetriever.search articles_retriever "life" 5 (9 # 10)))
   <= 5)%Z /\
  List.length (HybridRetriever.search articles_retriever "life" 5 (9 # 10)) = 2%nat.
Proof.
  assert (T : HybridRetriever.query_tokens "life" <> []) by (vm_compute; discriminate).
  split; [exact T|]. split; [lia|].
  destruct (fused_results_sum_over_positions articles_retriever "life" 5 (9 # 10)
              T ltac:(lia))
    as ((entries & Hn & Hkeys & Hscore & Hsorted & Heq & _) & _ & Hs & Hl & _).
  split; [|split; [exact Hs|split; [exact Hl|reflexivity]]].
  exists entries. repeat split; try assumption; apply Hkeys.
Defined.

(** The lexical-only scenario: with [alpha = 0] the top result for "life"
    is the first passage. *)
Example lexical_only_top_result :
  HybridRetriever.search articles_retriever "life" 1 0
  = [("Article 21 protects right to life.", (61 # 3721)%Q)].
Proof. vm_compute. reflexivity. Qed.

(** C3 on a query of one single-character word. *)
Lemma single_letter_query_is_vector_search :
  HybridRetriever.query_tokens "a" = [] /\
  HybridRetriever.search articles_retriever "a" 1 (9 # 10)
  = HybridRetriever.vector_store articles_retriever "a" 1.
Proof.
  split; [reflexivity|].
  apply (no_scorable_token_is_vector_search articles_retriever "a" 1 (9 # 10)).
  reflexivity.
Defined.


(** C8 on the two-article corpus, whose fused scores are below 0.2. *)
Lemma retrieve_context_on_articles :
  RAGPipeline.is_initialized (pipeline articles_retriever 6000 1000 5) = true /\
  RAGPipeline.retrieve_results (pipeline articles_retriever 6000 1000 5) "life" 5 <> [] /\
  RAGPipeline.retrieve_context (pipeline articles_retriever 6000 1000 5) "life" 5
  = PyStr.join (PyStr.nl ++ PyStr.nl)
      ["Article 21 protects right to life."; "Article 14 ensures equality."].
Proof.
  split; [reflexivity|]. split; [vm_compute; discriminate|].
  destruct (retrieve_context_threshold_or_top_k
              (pipeline articles_retriever 6000 1000 5) "life" 5)
    as (_ & _ & H).
  - reflexivity.
  - vm_compute. discriminate.
  - rewrite H; [vm_compute; reflexivity|].
    intros r Hr. vm_compute in Hr.
    destruct Hr as [<-|[<-|[]]]; vm_compute; discriminate.
Defined.


Example unreachable_generator_response :
  exists res,
    fst (run (generator_down "")
           (RAGPipeline.chat long_pipeline "s1" "what is life" true false) tt)
    = inr res /\
    response res = "Error generating response: connection refused" /\
    used_k (debug res) = 3%Z.
Proof. eexists. split; [vm_compute; reflexivity|]. split; reflexivity. Qed.

(** The greeting scenario: "hi" skips retrieval. *)
Example greeting_turn_skips_retrieval :
  exists res,
    fst (run (generator_says "Hello!" "")
           (RAGPipeline.chat long_pipeline "s1" "hi" true false) tt)
    = inr res /\
    response res = "Hello!" /\
    retrieved_context_preview (debug res) = "" /\
    used_k (debug res) = 0%Z.
Proof. eexists. split; [vm_compute; reflexivity|]. repeat split. Qed.

(** The greeting-override scenario. *)
Example greeting_override :
  RAGPipeline.is_informational "hi, what is Article 21?" = true /\
  RAGPipeline.greeting_shortcut "hi, what is Article 21?" = false.
Proof. split; reflexivity. Qed.

(** The follow-up scenario: "it is" reaches the generator. *)
Example follow_up_is_attempted :
  completions (generator_says "What is Article 21?" "User: Article 21")
    (RAGPipeline.rewrite_query_with_context "it is" "User: Article 21") tt
  = [RAGPipeline.rewrite_request "it is" "User: Article 21"].
Proof. reflexivity. Qed.


End Instances.

(* ====================================================================== *)
(** ** Corpora with a repeated chunk *)
(* ====================================================================== *)

Section RepeatedChunks.

Import Examples.

(** The rankings of the corpus in which "equality before law" is both
    chunk 1 and chunk 2: the vector ranking names index 1 twice. *)
Example repeated_chunk_rankings :
  HybridRetriever.bm25_top repeated_chunk_retriever "life law" 1 = [0; 2; 1]%nat /\
  HybridRetriever.vector_top repeated_chunk_retriever "life law" 1 = [0; 1; 1]%nat.
Proof. split; reflexivity. Qed.

(** C2 fails as stated: on the corpus with a repeated chunk the score of
    the returned passage is [1/63 + 0.9/62 + 0.9/63], which is not a sum of
    one term per source for any corpus index that holds this passage. *)
Lemma fused_score_not_single_rank :
  HybridRetriever.query_tokens "life law" <> [] /\
  HybridRetriever.search repeated_chunk_retriever "life law" 1 (9 # 10)
  = [("equality before law", (1099350 # 24607800)%Q)] /\
  forall i : nat,
    nth_error (HybridRetriever.documents repeated_chunk_retriever) i
    = Some "equality before law" ->
    ~ single_rank_score repeated_chunk_retriever "life law" 1 (9 # 10) i
        (1099350 # 24607800)%Q.
Proof.
  split; [vm_compute; discriminate|]. split; [vm_compute; reflexivity|].
  intros i Hi (t1 & t2 & H1 & H2 & E).
  unfold single_rank_term in H1, H2.
  destruct repeated_chunk_rankings as [R1 R2]. rewrite R1 in H1. rewrite R2 in H2.
  destruct i as [|[|[|i]]]; simpl in Hi; try discriminate.
  - (* index 1: lexical rank 2, vector rank 1 or 2 *)
    destruct H1 as [[N _]|(r1 & P1 & E1)]; [exfalso; apply N; simpl; auto|].
    destruct H2 as [[N _]|(r2 & P2 & E2)]; [exfalso; apply N; simpl; auto|].
    destruct r1 as [|[|[|r1]]]; simpl in P1; try discriminate;
      [|destruct r1; discriminate].
    destruct r2 as [|[|[|r2]]]; simpl in P2; try discriminate;
      try (destruct r2; discriminate);
      rewrite E1, E2 in E; vm_compute in E; discriminate.
  - (* index 2: lexical rank 1, absent from the vector list *)
    destruct H1 as [[N _]|(r1 & P1 & E1)]; [exfalso; apply N; simpl; auto|].
    destruct r1 as [|[|[|r1]]]; simpl in P1; try discriminate;
      [|destruct r1; discriminate].
    destruct H2 as [[_ E2]|(r2 & P2 & E2)].
    + rewrite E1, E2 in E. vm_compute in E. discriminate.
    + destruct r2 as [|[|[|r2]]]; simpl in P2; try discriminate.
      destruct r2; discriminate.
  - destruct i; discriminate.
Qed.



End RepeatedChunks.

(* ====================================================================== *)
(** ** A failing generator beside a failing store *)
(* ====================================================================== *)

Section RefusedWrites.

Import Examples.


End RefusedWrites.

(* ====================================================================== *)
(** ** Token estimates and the hard truncation *)
(* ====================================================================== *)

Section Estimates.

Import PyStr RAGPipeline.

Lemma length_take (n : nat) (s : string) :
  String.length (take n s) = Nat.min n (String.length s).
Proof.
  revert s. induction n as [|n IH]; intros [|c s]; simpl; try reflexivity.
  now rewrite IH.
Qed.

Lemma length_drop (n : nat) (s : string) :
  String.length (drop n s) = (String.length s - n)%nat.
Proof.
  revert s. induction n as [|n IH]; intros [|c s]; simpl; try reflexivity.
  apply IH.
Qed.

Lemma take_all (s : string) : take (String.length s) s = s.
Proof. induction s as [|c s IH]; simpl; [reflexivity | now rewrite IH]. Qed.

Lemma slice_to_take (s : string) (n : Z) : exists m, slice_to s n = take m s.
Proof. unfold slice_to. destruct (0 <=? n)%Z; eexists; reflexivity. Qed.

Lemma slice_from_drop (s : string) (n : Z) : exists m, slice_from s n = drop m s.
Proof. unfold slice_from. destruct (0 <=? n)%Z; eexists; reflexivity. Qed.

Lemma len_slice_to (s : string) (n : Z) :
  (0 <= n)%Z -> (len (slice_to s n) <= n)%Z.
Proof.
  intros H. unfold slice_to, len. apply Z.leb_le in H. rewrite H.
  rewrite length_take. apply Z.leb_le in H. lia.
Qed.

Lemma len_slice_from_tail (s : string) (n : Z) :
  (0 < n)%Z -> (len (slice_from s (- n)) <= n)%Z.
Proof.
  intros H. unfold slice_from, len.
  destruct (0 <=? - n)%Z eqn:E; [apply Z.leb_le in E; lia|].
  rewrite length_drop, Z.opp_involutive. lia.
Qed.

(** The estimate as a function of the length. *)
Lemma estimate_of_length (text : string) :
  _estimate_tokens text
  = if (String.length text =? 0)%nat then 0%Z else Z.max 1 (len text / 4).
Proof. destruct text; reflexivity. Qed.

Lemma estimate_nonneg (text : string) : (0 <= _estimate_tokens text)%Z.
Proof.
  rewrite estimate_of_length. destruct (String.length text =? 0)%nat; lia.
Qed.

(** A text of at most [4 * limit] characters is estimated at no more than
    [limit] tokens, once [limit] is at least one. *)
Lemma estimate_le_limit (text : string) (limit : Z) :
  (1 <= limit)%Z -> (len text <= 4 * limit)%Z -> (_estimate_tokens text <= limit)%Z.
Proof.
  intros H1 H2. rewrite estimate_of_length.
  destruct (String.length text =? 0)%nat; [lia|].
  assert (len text / 4 <= limit)%Z.
  { apply Z.div_le_upper_bound; lia. }
  lia.
Qed.

(** X1.  The estimate is 0 exactly for the empty text, is at least 1
    otherwise, never decreases when the text gets longer, and so never
    increases when a text is cut with [s[:n]] or [s[n:]]. *)
Theorem estimate_tokens_monotone (s1 s2 : string) (n : Z) :
  (_estimate_tokens s1 = 0%Z <-> s1 = "") /\
  ((String.length s1 <= String.length s2)%nat ->
   (_estimate_tokens s1 <= _estimate_tokens s2)%Z) /\
  (_estimate_tokens (slice_to s2 n) <= _estimate_tokens s2)%Z /\
  (_estimate_tokens (slice_from s2 n) <= _estimate_tokens s2)%Z.
Proof.
  assert (M : forall a b : string,
             (String.length a <= String.length b)%nat ->
             (_estimate_tokens a <= _estimate_tokens b)%Z).
  { intros a b H. rewrite !estimate_of_length. unfold len.
    destruct (String.length a =? 0)%nat eqn:Ea;
      destruct (String.length b =? 0)%nat eqn:Eb; try lia.
    - apply Nat.eqb_eq in Eb. apply Nat.eqb_neq in Ea. lia.
    - assert (Z.of_nat (String.length a) / 4 <= Z.of_nat (String.length b) / 4)%Z
        by (apply Z.div_le_mono; lia).
      lia. }
  split; [|split; [apply M|split]].
  - rewrite estimate_of_length. destruct s1 as [|c s1]; simpl.
    + tauto.
    + split; [lia | discriminate].
  - apply M. destruct (slice_to_take s2 n) as (m & ->).
    rewrite length_take. lia.
  - apply M. destruct (slice_from_drop s2 n) as (m & ->).
    rewrite length_drop. lia.
Qed.

Lemma available_at_least_256 (self : t) : (256 <= available_context_tokens self)%Z.
Proof. unfold available_context_tokens. lia. Qed.

(** The cut of the retrieved context to [limit] characters. *)
Lemma clip_retrieved (retrieved : string) (allowed : Z) :
  (0 <= allowed)%Z ->
  let clipped :=
    if (allowed * 4 <? len retrieved)%Z
    then slice_to retrieved (allowed * 4) else retrieved in
  (_estimate_tokens clipped <= allowed)%Z /\ exists m, clipped = take m retrieved.
Proof.
  intros H. cbv zeta.
  destruct (allowed * 4 <? len retrieved)%Z eqn:E.
  - split; [|apply slice_to_take].
    pose proof (len_slice_to retrieved (allowed * 4) ltac:(lia)) as L.
    destruct (Z.eq_dec allowed 0) as [->|Hne].
    + simpl in L |- *. rewrite estimate_of_length. unfold len in L.
      destruct (String.length (slice_to retrieved 0) =? 0)%nat eqn:E0; [lia|].
      apply Nat.eqb_neq in E0. lia.
    + apply estimate_le_limit; lia.
  - apply Z.ltb_ge in E. split; [|exists (String.length retrieved); now rewrite take_all].
    destruct (Z.eq_dec allowed 0) as [->|Hne].
    + rewrite estimate_of_length. unfold len in E.
      destruct (String.length retrieved =? 0)%nat eqn:E0; [lia|].
      apply Nat.eqb_neq in E0. lia.
    + apply estimate_le_limit; lia.
Qed.

(** The hard truncation, with its two cases spelled out. *)
Lemma hard_truncate_cases (self : t) (query_tokens : Z)
      (conversation_context retrieved_context : string) :
  let available := available_context_tokens self in
  let allowed0 :=
    Z.max 0 (available - _estimate_tokens conversation_context - query_tokens) in
  let kept := slice_from conversation_context (- (available / 2 * 4)) in
  hard_truncate self query_tokens conversation_context retrieved_context
  = if (allowed0 <=? 0)%Z
    then
      let allowed := Z.max 0 (available - _estimate_tokens kept - query_tokens) in
      (kept,
       if (allowed * 4 <? len retrieved_context)%Z
       then slice_to retrieved_context (allowed * 4) else retrieved_context)
    else
      (conversation_context,
       if (allowed0 * 4 <? len retrieved_context)%Z
       then slice_to retrieved_context (allowed0 * 4) else retrieved_context).
Proof.
  cbv zeta. unfold hard_truncate.
  pose proof (available_at_least_256 self) as A.
  destruct (Z.max 0 (available_context_tokens self
                     - _estimate_tokens conversation_context - query_tokens) <=? 0)%Z;
    [|reflexivity].
  assert (K : Z.max 0 (available_context_tokens self / 2 * 4)
              = (available_context_tokens self / 2 * 4)%Z).
  { assert (128 <= available_context_tokens self / 2)%Z
      by (apply Z.div_le_lower_bound; lia).
    lia. }
  rewrite K.
  assert (P : (0 <? available_context_tokens self / 2 * 4)%Z = true).
  { apply Z.ltb_lt.
    assert (128 <= available_context_tokens self / 2)%Z
      by (apply Z.div_le_lower_bound; lia).
    lia. }
  rewrite P. reflexivity.
Qed.

(** X2.  The hard truncation keeps a tail of the conversation context and
    a head of the retrieved context; it leaves the conversation context
    alone when that and the query are below the available tokens; and the
    total of its result is within the available tokens unless the query
    alone is estimated at more than the upper half of them. *)
Theorem hard_truncate_fits (self : t) (query_tokens : Z)
        (conversation_context retrieved_context : string) :
  let out := hard_truncate self query_tokens conversation_context retrieved_context in
  let available := available_context_tokens self in
  (exists n, fst out = drop n conversation_context) /\
  (exists m, snd out = take m retrieved_context) /\
  ((_estimate_tokens conversation_context + query_tokens < available)%Z ->
   fst out = conversation_context) /\
  ((tokens_total (fst out) (snd out) query_tokens <= available)%Z \/
   (available - available / 2 < query_tokens)%Z).
Proof.
  cbv zeta. rewrite hard_truncate_cases. cbv zeta.
  pose proof (available_at_least_256 self) as A.
  set (available := available_context_tokens self) in *.
  assert (H2 : (128 <= available / 2)%Z) by (apply Z.div_le_lower_bound; lia).
  destruct (Z.max 0 (available - _estimate_tokens conversation_context - query_tokens)
            <=? 0)%Z eqn:E0.
  - apply Z.leb_le in E0.
    set (kept := slice_from conversation_context (- (available / 2 * 4))).
    assert (Hk : (_estimate_tokens kept <= available / 2)%Z).
    { apply estimate_le_limit; [lia|].
      pose proof (len_slice_from_tail conversation_context (available / 2 * 4)
                    ltac:(lia)).
      fold kept in H. lia. }
    set (allowed := Z.max 0 (available - _estimate_tokens kept - query_tokens)).
    destruct (clip_retrieved retrieved_context allowed ltac:(lia)) as [Hc Hm].
    cbv zeta in Hc, Hm. simpl fst. simpl snd.
    split; [apply slice_from_drop|]. split; [exact Hm|]. split; [lia|].
    unfold tokens_total.
    destruct (Z_le_gt_dec query_tokens (available - available / 2)) as [Hq|Hq];
      [left|right; lia].
    assert (allowed = available - _estimate_tokens kept - query_tokens)%Z by lia.
    lia.
  - apply Z.leb_gt in E0.
    set (allowed := Z.max 0 (available - _estimate_tokens conversation_context
                             - query_tokens)) in *.
    destruct (clip_retrieved retrieved_context allowed ltac:(lia)) as [Hc Hm].
    cbv zeta in Hc, Hm. simpl fst. simpl snd.
    split; [exists 0%nat; now destruct conversation_context|].
    split; [exact Hm|]. split; [reflexivity|].
    left. unfold tokens_total. lia.
Qed.

End Estimates.

(* ====================================================================== *)
(** ** The budget loop, all exits *)
(* ====================================================================== *)

Section BudgetAllExits.

Import PyStr RAGPipeline.

Context {St : Type} (h : handler St).
Variables (self : t) (session_id query : string).

(** A result whose total is within the available tokens, unless the query
    alone is estimated at more than the upper half of them. *)
Let fits (conversation_context retrieved_context : string) : Prop :=
  (tokens_total conversation_context retrieved_context (_estimate_tokens query)
   <= available_context_tokens self)%Z \/
  (available_context_tokens self - available_context_tokens self / 2
   < _estimate_tokens query)%Z.

Lemma loop_step_fits (include_history : bool) (k : Z) (conversation_context : string) :
  returns h (loop_step self session_id query include_history k conversation_context)
    (fun o =>
       match o with
       | Break e k' c r => k' = k /\ fits c r
       | Continue k' c => (min_k self < k)%Z /\ k' = Z.max (min_k self) (k - 1)
       end).
Proof.
  intros s. unfold loop_step.
  set (retrieved := retrieve_context self query k).
  destruct (tokens_total conversation_context retrieved (_estimate_tokens query)
            <=? available_context_tokens self)%Z eqn:E0.
  { exists (Break WithinBudget k conversation_context retrieved), s.
    split; [reflexivity|]. split; [reflexivity|]. left. now apply Z.leb_le. }
  rewrite run_bind.
  assert (Hr : exists r s1,
             run h (if include_history then refresh_summary session_id else Ret None) s
             = (inr r, s1)).
  { destruct include_history; [apply refresh_summary_returns|].
    now exists None, s. }
  destruct Hr as (r & s1 & ->).
  set (conv := match r with Some c => c | None => conversation_context end).
  destruct (match r with
            | Some _ =>
                (tokens_total conv retrieved (_estimate_tokens query)
                 <=? available_context_tokens self)%Z
            | None => false
            end) eqn:Ef.
  { exists (Break WithinBudgetAfterSummary k conv retrieved), s1.
    split; [reflexivity|]. split; [reflexivity|]. left.
    destruct r; [now apply Z.leb_le | discriminate]. }
  destruct (min_k self <? k)%Z eqn:Ek.
  { exists (Continue (Z.max (min_k self) (k - 1)) conv), s1.
    split; [reflexivity|]. split; [now apply Z.ltb_lt | reflexivity]. }
  pose proof (hard_truncate_fits self (_estimate_tokens query) conv retrieved) as Hh.
  cbv zeta in Hh.
  destruct (hard_truncate self (_estimate_tokens query) conv retrieved) as [c' r'].
  exists (Break HardTruncation k c' r'), s1.
  split; [reflexivity|]. split; [reflexivity|]. apply Hh.
Qed.

Lemma budget_loop_fits (include_history : bool) (fuel : nat) :
  forall (k : Z) (conversation_context : string) (done : nat),
    (Z.to_nat (k - min_k self) < fuel)%nat ->
    returns h
      (budget_loop fuel self session_id query include_history k
         conversation_context done)
      (fun o =>
         exists b, o = Some b /\
                   fits (final_conversation_context b) (final_retrieved_context b) /\
                   (final_k b <= k)%Z /\
                   (final_k b = k \/ min_k self <= final_k b)%Z).
Proof.
  induction fuel as [|fuel IH]; intros k conv done Hfuel; [lia|].
  cbn [budget_loop].
  eapply returns_bind; [apply loop_step_fits|].
  intros [e k' c r | k' c] Hpost; simpl in Hpost.
  - destruct Hpost as (-> & Hfit).
    apply returns_ret. eexists. split; [reflexivity|]. simpl.
    repeat split; try lia; auto.
  - destruct Hpost as (Hk & ->).
    eapply returns_weaken; [apply IH; lia|].
    intros o (b & -> & Hfit & Hle & Hmin).
    exists b. split; [reflexivity|]. repeat split; try lia; auto.
Qed.

(** Without conversation history the loop is a plain computation: it
    contacts no collaborator, and it hands back a tail of the conversation
    context it was given. *)
Lemma budget_loop_without_history (fuel : nat) :
  forall (k : Z) (conversation_context : string) (done : nat),
  exists o,
    budget_loop fuel self session_id query false k conversation_context done = Ret o /\
    forall b, o = Some b ->
              exists n, final_conversation_context b = drop n conversation_context.
Proof.
  induction fuel as [|fuel IH]; intros k conv done.
  - exists None. split; [reflexivity | discriminate].
  - cbn [budget_loop]. unfold loop_step.
    destruct (tokens_total conv (retrieve_context self query k) (_estimate_tokens query)
              <=? available_context_tokens self)%Z.
    + eexists. split; [reflexivity|]. intros b E. inversion E; subst. simpl.
      exists 0%nat. now destruct conv.
    + cbn. destruct (min_k self <? k)%Z.
      * cbn. apply IH.
      * pose proof (hard_truncate_fits self (_estimate_tokens query) conv
                      (retrieve_context self query k)) as Hh.
        cbv zeta in Hh.
        destruct (hard_truncate self (_estimate_tokens query) conv
                    (retrieve_context self query k)) as [c' r'].
        cbn. eexists. split; [reflexivity|].
        intros b E. inversion E; subst. simpl. apply Hh.
Qed.

End BudgetAllExits.

(** X3.  With enough fuel and whatever the collaborators answer, the budget
    loop returns a result whose total estimate, on every exit, is within
    the available tokens unless the query alone is estimated at more than
    the upper half of them; the [k] it reports is the one it started with
    or lies between [min_k] and that one. *)
Theorem budget_loop_every_exit_fits
  (St : Type) (h : handler St) (s : St) (self : RAGPipeline.t)
  (session_id query conversation_context : string) (include_history : bool)
  (desired_k : Z) (fuel : nat) :
  (RAGPipeline.loop_fuel self desired_k <= fuel)%nat ->
  exists (b : RAGPipeline.budget_result) (s' : St),
    run h (RAGPipeline.budget_loop fuel self session_id query include_history
             desired_k conversation_context 0) s = (inr (Some b), s') /\
    ((RAGPipeline.tokens_total
        (RAGPipeline.final_conversation_context b)
        (RAGPipeline.final_retrieved_context b)
        (RAGPipeline._estimate_tokens query)
      <= RAGPipeline.available_context_tokens self)%Z \/
     (RAGPipeline.available_context_tokens self
      - RAGPipeline.available_context_tokens self / 2
      < RAGPipeline._estimate_tokens query)%Z) /\
    (RAGPipeline.final_k b <= desired_k)%Z /\
    (RAGPipeline.final_k b = desired_k \/
     RAGPipeline.min_k self <= RAGPipeline.final_k b)%Z.
Proof.
  intros Hfuel. unfold RAGPipeline.loop_fuel in Hfuel.
  destruct (budget_loop_fits h self session_id query include_history fuel
              desired_k conversation_context 0 ltac:(lia) s)
    as (o & s' & Hrun & b & -> & Hfit & Hle & Hmin).
  exists b, s'. repeat split; assumption.
Qed.

(** X4.  With [include_history] off, the budget loop contacts no
    collaborator at all: it is a plain return, of a result whose
    conversation context is a tail of the one it was given. *)
Theorem budget_loop_without_history_is_pure
  (self : RAGPipeline.t) (session_id query conversation_context : string)
  (k : Z) (fuel : nat) :
  exists o : option RAGPipeline.budget_result,
    RAGPipeline.budget_loop fuel self session_id query false k conversation_context 0
    = Ret o /\
    (forall (St : Type) (h : handler St) (s : St),
        event_log h
          (RAGPipeline.budget_loop fuel self session_id query false k
             conversation_context 0) s = []) /\
    forall b, o = Some b ->
              exists n,
                RAGPipeline.final_conversation_context b
                = PyStr.drop n conversation_context.
Proof.
  destruct (budget_loop_without_history self session_id query fuel k
              conversation_context 0) as (o & E & Hb).
  exists o. split; [exact E|]. split; [|exact Hb].
  intros St h s. now rewrite E.
Qed.

(* ====================================================================== *)
(** ** Whole turns *)
(* ====================================================================== *)

Section Turns.

Import PyStr RAGPipeline.

Context {St : Type} (h : handler St).

Lemma ensures_bind {A B : Type} (p : prog A) (f : A -> prog B)
      (P : A -> Prop) (Q : B -> Prop) :
  ensures h p P -> (forall a, P a -> ensures h (f a) Q) -> ensures h (bind p f) Q.
Proof.
  intros Hp Hf s b s' H. rewrite run_bind in H.
  destruct (run h p s) as [[e|a] s1] eqn:E; [discriminate|].
  eapply Hf; [eapply Hp; eassumption | eassumption].
Qed.

Lemma ensures_any {A : Type} (p : prog A) : ensures h p (fun _ => True).
Proof. intros s a s' _. exact I. Qed.

Lemma ensures_ret {A : Type} (a : A) (P : A -> Prop) : P a -> ensures h (Ret a) P.
Proof. intros H s b s' E. simpl in E. now inversion E; subst. Qed.

Lemma returns_ensures {A : Type} (p : prog A) (P : A -> Prop) :
  returns h p P -> ensures h p P.
Proof.
  intros Hp s a s' E. destruct (Hp s) as (a' & s1 & E' & Ha).
  rewrite E in E'. now inversion E'; subst.
Qed.

Lemma raises_bind_l {A B : Type} (p : prog A) (f : A -> prog B) (e : exn) :
  raises h p e -> raises h (bind p f) e.
Proof.
  intros Hp s. rewrite run_bind. destruct (Hp s) as (s' & ->). eauto.
Qed.

Lemma raises_bind_r {A B : Type} (p : prog A) (f : A -> prog B)
      (P : A -> Prop) (e : exn) :
  returns h p P -> (forall a, P a -> raises h (f a) e) -> raises h (bind p f) e.
Proof.
  intros Hp Hf s. rewrite run_bind.
  destruct (Hp s) as (a & s' & -> & Ha). now apply Hf.
Qed.

Lemma raises_call {X : Type} (ev : event X) (e : exn) :
  (forall s, fst (h _ ev s) = inl e) -> raises h (call ev) e.
Proof.
  intros H s. rewrite run_call. specialize (H s).
  destruct (h X ev s) as [r s']. simpl in H. subst r. eauto.
Qed.

(** The evaluation of the retrieval path: never an object that is true
    and not a dictionary, and nothing when evaluation is off or no
    evaluator exists. *)
Lemma evaluate_turn_plain (self : t) (evaluate : bool)
      (session_id query response_text context : string) :
  ensures h (evaluate_turn self evaluate session_id query response_text context true)
    (fun v => (forall r, v <> PyOther true r) /\
              (evaluate && evaluator self = false -> v = PyNone)).
Proof.
  intros s v s' E. unfold evaluate_turn in E.
  destruct (evaluate && evaluator self).
  - split; [|discriminate]. cbn in E.
    destruct (h _ (EvaluateConversationTurn session_id query response_text context) s)
      as [[e|v0] s1]; cbn in E; inversion E; subst; [discriminate|].
    destruct v0 as [| d | [] r0]; discriminate.
  - cbn in E. inversion E; subst. split; [discriminate | reflexivity].
Qed.

(** X5.  A turn on the retrieval path that returns reports token
    estimates that add up within [total_context_allowed], unless the query
    estimate alone is above the upper half of it; the reported [used_k] is
    [RETRIEVE_K] or lies between [min_k] and it; the evaluation is never
    an object that is true and not a dictionary, and is [None] when
    evaluation is off or no evaluator exists. *)
Theorem retrieval_turn_report
  (self : t) (session_id query : string) (include_history evaluate : bool)
  (s s' : St) (res : chat_result) :
  greeting_shortcut query = false ->
  run h (chat self session_id query include_history evaluate) s = (inr res, s') ->
  let t := tokens (debug res) in
  te_total_context_allowed t = available_context_tokens self /\
  ((te_conversation t + te_retrieved t + te_query t <= te_total_context_allowed t)%Z \/
   (te_total_context_allowed t - te_total_context_allowed t / 2 < te_query t)%Z) /\
  (used_k (debug res) <= RETRIEVE_K self)%Z /\
  (used_k (debug res) = RETRIEVE_K self \/ min_k self <= used_k (debug res))%Z /\
  (forall r, evaluation res <> PyOther true r) /\
  (evaluate && evaluator self = false -> evaluation res = PyNone).
Proof.
  intros Hg Hrun. unfold chat in Hrun. rewrite Hg in Hrun.
  revert s res s' Hrun. cbv zeta.
  change (ensures h (retrieval_turn self session_id query include_history evaluate)
            (fun res =>
               te_total_context_allowed (tokens (debug res))
               = available_context_tokens self /\
               ((te_conversation (tokens (debug res))
                 + te_retrieved (tokens (debug res))
                 + te_query (tokens (debug res))
                 <= te_total_context_allowed (tokens (debug res)))%Z \/
                (te_total_context_allowed (tokens (debug res))
                 - te_total_context_allowed (tokens (debug res)) / 2
                 < te_query (tokens (debug res)))%Z) /\
               (used_k (debug res) <= RETRIEVE_K self)%Z /\
               (used_k (debug res) = RETRIEVE_K self
                \/ min_k self <= used_k (debug res))%Z /\
               (forall r, evaluation res <> PyOther true r) /\
               (evaluate && evaluator self = false -> evaluation res = PyNone))).
  unfold retrieval_turn.
  eapply ensures_bind; [apply ensures_any|]. intros conversation_context _.
  eapply ensures_bind; [apply ensures_any|]. intros query' _.
  eapply ensures_bind.
  { apply returns_ensures, budget_loop_fits. unfold loop_fuel. lia. }
  intros o (b & -> & Hfit & Hle & Hmin).
  eapply ensures_bind; [apply ensures_any|]. intros response_text _.
  eapply ensures_bind; [apply ensures_any|]. intros _ _.
  eapply ensures_bind; [apply evaluate_turn_plain|]. intros v [Hv1 Hv2].
  apply ensures_ret. simpl. unfold tokens_total in Hfit.
  repeat split; auto.
Qed.

(** X6.  A persistence failure on the retrieval path is not absorbed: when
    the conversation store answers its reads and refuses [add_exchange]
    with [e], a turn with history that is not a greeting raises [e]. *)
Theorem exchange_write_failure_propagates
  (self : t) (session_id query : string) (evaluate : bool) (e : exn) (s : St) :
  greeting_shortcut query = false ->
  (forall (sid : string) (client : bool) (s0 : St),
      exists c, fst (h _ (GetConversationContext sid client) s0) = inr c) ->
  (forall (sid q r : string) (d : debug_info) (s0 : St),
      fst (h _ (AddExchange sid q r d) s0) = inl e) ->
  exists s', run h (chat self session_id query true evaluate) s = (inl e, s').
Proof.
  intros Hg Hget Hadd. unfold chat. rewrite Hg.
  revert s.
  change (raises h (retrieval_turn self session_id query true evaluate) e).
  unfold retrieval_turn.
  eapply raises_bind_r with (P := fun _ => True).
  { apply returns_call. intros s. apply Hget. }
  intros conversation_context _.
  eapply raises_bind_r with (P := fun _ => True).
  { destruct (true && negb (String.eqb conversation_context "")).
    - apply rewrite_returns.
    - now apply returns_ret. }
  intros query' _.
  eapply raises_bind_r.
  { apply budget_loop_returns. unfold loop_fuel. lia. }
  intros o (b & -> & _).
  eapply raises_bind_r; [apply generate_response_error|].
  intros response_text _.
  apply raises_bind_l. apply raises_call. intros s. apply Hadd.
Qed.

End Turns.

Section GreetingTurns.

Import PyStr RAGPipeline.

Context {St : Type} (h : handler St).

Ltac answer :=
  match goal with
  | |- context [h ?X ?ev ?s] =>
      let r := fresh "r" in
      let s1 := fresh "s" in
      destruct (h X ev s) as [[r|r] s1]; cbn
  end.

(** X7.  A greeting turn returns whatever the collaborators do, also when
    the store refuses both writes and the evaluator raises: it reports no
    retrieved context and [used_k = 0], and it never reads or compacts the
    conversation and never calls [add_exchange]. *)
Theorem greeting_turn_always_returns
  (self : t) (session_id query : string) (include_history evaluate : bool) (s : St) :
  greeting_shortcut query = true ->
  exists (res : chat_result) (s' : St),
    run h (chat self session_id query include_history evaluate) s = (inr res, s') /\
    retrieved_context_preview (debug res) = "" /\
    used_k (debug res) = 0%Z /\
    note (debug res) = Some "retrieval_skipped_greeting" /\
    forall k : event_kind,
      In k (event_log h (chat self session_id query include_history evaluate) s) ->
      k = Completion \/ k = MessageWrite \/ k = Evaluation.
Proof.
  intros Hg. unfold chat. rewrite Hg. unfold greeting_turn, generate_response,
    evaluate_turn.
  destruct (evaluate && evaluator self); cbn;
    repeat answer;
    (eexists; eexists; split; [reflexivity|]; repeat split;
     intros k Hk; simpl in Hk; intuition (subst; auto)).
Qed.

(** X8.  A turn without history that is not a greeting contacts only the
    text generator, the message writes and the evaluator; when it returns,
    the query was not rewritten and no conversation context is reported. *)
Theorem turn_without_history
  (self : t) (session_id query : string) (evaluate : bool) (s : St) :
  greeting_shortcut query = false ->
  (forall k : event_kind,
      In k (event_log h (chat self session_id query false evaluate) s) ->
      k = Completion \/ k = MessageWrite \/ k = Evaluation) /\
  forall (res : chat_result) (s' : St),
    run h (chat self session_id query false evaluate) s = (inr res, s') ->
    rewrite (debug res)
    = Some {| query_rewritten := false; original_query := None;
              rewritten_query := None |} /\
    conversation_context_preview (debug res) = "" /\
    te_conversation (tokens (debug res)) = 0%Z.
Proof.
  intros Hg. unfold chat. rewrite Hg. unfold retrieval_turn.
  cbn -[budget_loop loop_fuel].
  destruct (budget_loop_without_history self session_id query
              (loop_fuel self (RETRIEVE_K self)) (RETRIEVE_K self) "" 0)
    as (o & Eo & Hb).
  rewrite Eo. cbn.
  destruct o as [b|]; cbn.
  - destruct (Hb b eq_refl) as (n & Hn).
    assert (Hc : final_conversation_context b = "").
    { rewrite Hn. now destruct n. }
    rewrite Hc, String.eqb_refl.
    unfold generate_response, evaluate_turn.
    destruct (evaluate && evaluator self); cbn;
      repeat answer;
      (split;
       [intros k Hk; simpl in Hk; intuition (subst; auto)
       |intros res s' E; inversion E; subst; cbn; repeat split]).
  - split; [intros k []|]. intros res s' E. discriminate.
Qed.

End GreetingTurns.

(* ====================================================================== *)
(** ** The chat endpoint *)
(* ====================================================================== *)

(** X9.  [POST /chat] hands the web framework a result under every
    behaviour of the collaborators.  On a pipeline that is not initialized
    it answers 400 without contacting anyone; otherwise an exception of the
    turn becomes a 500 whose detail is "Chat processing failed: " and the
    text of the exception, and the evaluation of a returned turn is [None]
    or a dictionary. *)
Theorem chat_endpoint_answers
  (St : Type) (h : handler St) (rag : RAGPipeline.t) (session_id query : string)
  (include_history evaluate : bool) (s : St) :
  exists (r : Service.http_result) (s' : St),
    run h (Service.chat rag session_id query include_history evaluate) s = (inr r, s') /\
    (RAGPipeline.is_initialized rag = false ->
     r = Service.HTTPException 400 "RAG not initialized" /\
     event_log h (Service.chat rag session_id query include_history evaluate) s = []) /\
    (RAGPipeline.is_initialized rag = true ->
     match fst (run h (RAGPipeline.chat rag session_id query include_history evaluate) s)
     with
     | inr out => r = Service.Ok (Service.plain_evaluation out)
     | inl e => r = Service.HTTPException 500 ("Chat processing failed: " ++ str e)
     end) /\
    (forall out, r = Service.Ok out ->
                 evaluation out = PyNone \/ exists d, evaluation out = PyDict d).
Proof.
  unfold Service.chat.
  destruct (RAGPipeline.is_initialized rag); simpl negb; cbv iota.
  - rewrite run_try_catch, run_bind.
    destruct (run h (RAGPipeline.chat rag session_id query include_history evaluate) s)
      as [[e|out] s1]; simpl.
    + eexists. eexists. split; [reflexivity|].
      repeat split; try discriminate.
    + eexists. eexists. split; [reflexivity|].
      split; [discriminate|]. split; [reflexivity|].
      intros out' E. inversion E; subst. unfold Service.plain_evaluation.
      destruct (evaluation out) eqn:Ev; simpl; rewrite ?Ev; eauto.
  - eexists. eexists. split; [reflexivity|].
    split; [split; reflexivity|]. split; [discriminate|]. discriminate.
Qed.

(* ====================================================================== *)
(** ** More on the query-rewrite heuristic *)
(* ====================================================================== *)

Section RewriteRules.

Import PyStr RAGPipeline.

(** X10.  The heuristic sends at most one request to the text generator,
    the rewrite request, and sends it only for a query of at most 15 words
    with a non-empty conversation context, none of the starter phrases at
    its start, none of the legal terms in it, and a match of one of the
    follow-up patterns; in every other case it contacts nobody. *)
Theorem rewrite_request_conditions
  (St : Type) (h : handler St) (s : St) (query conversation_context : string) :
  let sent := completions h (rewrite_query_with_context query conversation_context) s in
  (sent = [] \/ sent = [rewrite_request query conversation_context]) /\
  (sent <> [] ->
   conversation_context <> "" /\
   (word_count query <= 15)%nat /\
   (forall starter, In starter informational_starters ->
                    startswith (strip (lower query)) starter = false) /\
   (forall term, In term specific_legal_terms ->
                 contains term (lower query) = false) /\
   exists pattern, In pattern strong_follow_up_patterns /\
                   Re.search pattern (lower query) = true) /\
  (sent = [] ->
   event_log h (rewrite_query_with_context query conversation_context) s = []).
Proof.
  cbv zeta. unfold rewrite_query_with_context.
  destruct (String.eqb_spec conversation_context "") as [Hc|Hc];
    [simpl; intuition congruence|].
  destruct (15 <? word_count query)%nat eqn:Ew; [simpl; intuition congruence|].
  destruct (existsb (fun starter => startswith (strip (lower query)) starter)
              informational_starters) eqn:Es; [simpl; intuition congruence|].
  destruct (existsb (fun term => contains term (lower query)) specific_legal_terms)
    eqn:Et; [simpl; intuition congruence|].
  destruct (existsb (fun pattern => Re.search pattern (lower query))
              strong_follow_up_patterns) eqn:Ep; [|simpl; intuition congruence].
  cbn [negb].
  assert (Hsent : completions h
                    (try_catch
                       (bind (call (ChatCompletion
                                      (rewrite_request query conversation_context)))
                          (fun content =>
                             if (word_count query * 2 <? word_count (strip content))%nat
                             then Ret query else Ret (strip content)))
                       (fun _ => Ret query)) s
                  = [rewrite_request query conversation_context]).
  { unfold call. cbn [try_catch bind completions].
    destruct (h _ (ChatCompletion (rewrite_request query conversation_context)) s)
      as [[e|content] s1]; cbn [try_catch bind completions]; [reflexivity|].
    destruct (word_count query * 2 <? word_count (strip content))%nat; reflexivity. }
  rewrite Hsent. split; [now right|]. split; [|discriminate].
  intros _. split; [assumption|]. split; [apply Nat.ltb_ge in Ew; lia|].
  split; [|split].
  - intros starter Hin.
    destruct (startswith (strip (lower query)) starter) eqn:E; [|reflexivity].
    assert (existsb (fun starter => startswith (strip (lower query)) starter)
              informational_starters = true)
      by (apply existsb_exists; eauto).
    congruence.
  - intros term Hin.
    destruct (contains term (lower query)) eqn:E; [|reflexivity].
    assert (existsb (fun term => contains term (lower query)) specific_legal_terms
            = true)
      by (apply existsb_exists; eauto).
    congruence.
  - apply existsb_exists in Ep. exact Ep.
Qed.

(** X11.  The heuristic reads the conversation context only through its
    last 800 characters: two non-empty contexts with the same last 800
    characters give the same program, hence the same request and result. *)
Theorem rewrite_reads_last_800_characters (query context1 context2 : string) :
  context1 <> "" -> context2 <> "" ->
  slice_from context1 (-800) = slice_from context2 (-800) ->
  rewrite_query_with_context query context1 = rewrite_query_with_context query context2.
Proof.
  intros H1 H2 E. unfold rewrite_query_with_context.
  destruct (String.eqb_spec context1 "") as [|_]; [contradiction|].
  destruct (String.eqb_spec context2 "") as [|_]; [contradiction|].
  unfold rewrite_request, rewrite_prompt. now rewrite E.
Qed.

(** A literal matches where it is a prefix of the remaining text. *)
Lemma match_lit_prefix (l : string) :
  forall (prev : option ascii) (s : string),
    match Re.match_lit l prev s with
    | Some _ => true
    | None => false
    end = String.prefix l s.
Proof.
  induction l as [|a l IH]; intros prev s; simpl.
  - now destruct s.
  - destruct s as [|c s]; [reflexivity|]. simpl.
    destruct (Ascii.eqb_spec a c) as [->|Hne].
    + destruct (ascii_dec c c) as [_|C]; [apply IH | contradiction].
    + destruct (ascii_dec a c) as [C|_]; [contradiction | reflexivity].
Qed.

Lemma match_at_lit (l : string) (prev : option ascii) (s : string) :
  Re.match_at (Re.Lit l) prev s (fun _ _ => true) = String.prefix l s.
Proof.
  simpl. rewrite <- (match_lit_prefix l prev s).
  destruct (Re.match_lit l prev s) as [[p s']|]; reflexivity.
Qed.

(** A pattern anchored with [^] matches nowhere past the start. *)
Lemma search_from_anchored (r : Re.regex) (s : string) :
  forall c, Re.search_from (Re.Seq Re.Start r) (Some c) s = false.
Proof.
  induction s as [|c' s IH]; intros c; simpl; [reflexivity|]. apply IH.
Qed.

(** X12.  The follow-up pattern [^(more|another)] holds exactly for the
    texts that start with "more" or with "another" (so also for a word
    that merely begins that way). *)
Theorem more_or_another_is_a_prefix_test (s : string) :
  Re.search (Re.Seq Re.Start (Re.Alt (Re.Lit "more") (Re.Lit "another"))) s
  = startswith s "more" || startswith s "another".
Proof.
  unfold Re.search, startswith.
  destruct s as [|c s].
  - reflexivity.
  - cbn [Re.search_from]. rewrite search_from_anchored, orb_false_r.
    cbn [Re.match_at].
    change (Re.match_at (Re.Lit "more") None (String c s) (fun _ _ => true)
            || Re.match_at (Re.Lit "another") None (String c s) (fun _ _ => true)
            = String.prefix "more" (String c s) || String.prefix "another" (String c s)).
    now rewrite !match_at_lit.
Qed.

End RewriteRules.

(* ====================================================================== *)
(** ** Tokenization *)
(* ====================================================================== *)

Section Tokens.

Import PyStr HybridRetriever.

Lemma every_char_append (p : ascii -> bool) (a b : string) :
  every_char p (a ++ b) = every_char p a && every_char p b.
Proof.
  induction a as [|c a IH]; simpl; [reflexivity|].
  now rewrite IH, andb_assoc.
Qed.

(** The words of [split] are built from characters of the text. *)
Lemma split_from_every (p : ascii -> bool) (s : string) :
  forall cur : option string,
    every_char p s = true ->
    (forall w, cur = Some w -> every_char p w = true) ->
    Forall (fun w => every_char p w = true) (split_from cur s).
Proof.
  induction s as [|c s IH]; intros cur Hs Hcur; simpl.
  - destruct cur as [w|]; [|constructor].
    constructor; [now apply Hcur | constructor].
  - simpl in Hs. apply andb_true_iff in Hs as [Hc Hs].
    destruct (isspace c).
    + destruct cur as [w|].
      * constructor; [now apply Hcur|]. apply IH; [assumption | discriminate].
      * apply IH; [assumption | discriminate].
    + apply IH; [assumption|].
      intros w E. inversion E; subst. destruct cur as [w0|].
      * rewrite every_char_append. simpl. rewrite (Hcur w0 eq_refl), Hc. reflexivity.
      * simpl. now rewrite Hc.
Qed.

(** The words of [split] are not empty and hold no white space. *)
Lemma split_from_words (s : string) :
  forall cur : option string,
    (forall w, cur = Some w -> w <> "" /\ every_char not_space w = true) ->
    Forall (fun w => w <> "" /\ every_char not_space w = true) (split_from cur s).
Proof.
  induction s as [|c s IH]; intros cur Hcur; simpl.
  - destruct cur as [w|]; [|constructor].
    constructor; [now apply Hcur | constructor].
  - destruct (isspace c) eqn:Ec.
    + destruct cur as [w|].
      * constructor; [now apply Hcur|]. apply IH. discriminate.
      * apply IH. discriminate.
    + apply IH. intros w E. inversion E; subst. destruct cur as [w0|].
      * destruct (Hcur w0 eq_refl) as [_ Hw]. split.
        -- destruct w0; discriminate.
        -- rewrite every_char_append. simpl. unfold not_space at 2.
           now rewrite Hw, Ec.
      * split; [discriminate|]. simpl. unfold not_space. now rewrite Ec.
Qed.

Lemma lower_char_idempotent (c : ascii) : lower_char (lower_char c) = lower_char c.
Proof. destruct c as [[] [] [] [] [] [] [] []]; vm_compute; reflexivity. Qed.

Lemma lower_every_fixed (s : string) : every_char lower_fixed (lower s) = true.
Proof.
  induction s as [|c s IH]; simpl; [reflexivity|].
  rewrite IH, andb_true_r. unfold lower_fixed.
  rewrite lower_char_idempotent. apply Ascii.eqb_refl.
Qed.

Lemma lower_of_fixed (s : string) : every_char lower_fixed s = true -> lower s = s.
Proof.
  induction s as [|c s IH]; simpl; [reflexivity|].
  intros H. apply andb_true_iff in H as [Hc Hs].
  unfold lower_fixed in Hc. apply Ascii.eqb_eq in Hc. now rewrite Hc, IH.
Qed.

Lemma lower_idempotent (s : string) : lower (lower s) = lower s.
Proof. apply lower_of_fixed, lower_every_fixed. Qed.

(** X13.  Every token of a text has at least two characters, holds no
    white space and is in lower case; and the tokens do not depend on the
    case of the text. *)
Theorem tokenize_tokens (text token : string) :
  In token (tokenize text) ->
  (2 <= String.length token)%nat /\
  every_char not_space token = true /\
  lower token = token /\
  tokenize (lower text) = tokenize text.
Proof.
  unfold tokenize. intros H. apply filter_In in H as [Hin Hlen].
  unfold split in Hin.
  pose proof (split_from_words (lower text) None ltac:(discriminate)) as W.
  pose proof (split_from_every lower_fixed (lower text) None
                (lower_every_fixed text) ltac:(discriminate)) as L.
  rewrite Forall_forall in W, L.
  split; [|split; [|split]].
  - apply Z.ltb_lt in Hlen. unfold len in Hlen. lia.
  - apply (W token Hin).
  - apply lower_of_fixed, (L token Hin).
  - now rewrite lower_idempotent.
Qed.

(** X14.  The corpus handed to the lexical index has one entry per
    document, in order; no entry is empty, and every token in it has at
    least two characters.  The retriever keeps the documents it was given. *)
Theorem tokenized_corpus_has_no_empty_document (docs : list string) :
  List.length (tokenized_documents docs) = List.length docs /\
  Forall (fun tokens =>
            tokens <> [] /\
            Forall (fun t => (2 <= String.length t)%nat) tokens)
    (tokenized_documents docs) /\
  forall (BM25Okapi : list (list string) -> list string -> list Q)
         (np_argsort : list Q -> list nat)
         (store : string -> Z -> list (string * Q)),
    bm25 (init BM25Okapi np_argsort store docs) = BM25Okapi (tokenized_documents docs) /\
    documents (init BM25Okapi np_argsort store docs) = docs.
Proof.
  split; [apply length_map|]. split; [|intros; split; reflexivity].
  unfold tokenized_documents. apply Forall_forall. intros tokens Hin.
  apply in_map_iff in Hin. destruct Hin as (doc & <- & _).
  destruct (tokenize doc) as [|t ts] eqn:E.
  - split; [discriminate|]. repeat constructor.
  - split; [discriminate|]. apply Forall_forall. intros x Hx.
    rewrite <- E in Hx. unfold tokenize in Hx.
    apply filter_In in Hx as [_ Hlen].
    apply Z.ltb_lt in Hlen. unfold len in Hlen. lia.
Qed.

End Tokens.

(* ====================================================================== *)
(** ** More on the fusion search *)
(* ====================================================================== *)

Section FusionMore.

Import HybridRetriever.

Local Open Scope Q_scope.

Lemma contribution_pos (w : Q) (rank : nat) : 0 < w -> 0 < contribution w rank.
Proof.
  intros H. unfold contribution.
  apply Qlt_shift_div_l; [apply denominator_pos | now rewrite Qmult_0_l].
Qed.

Lemma rank_sum_pos (w : Q) (ranked : list nat) (i : nat) :
  forall start, 0 < w -> In i ranked -> 0 < rank_sum w start ranked i.
Proof.
  induction ranked as [|j ranked IH]; intros start Hw Hin; [contradiction|].
  simpl. pose proof (rank_sum_nonneg w ranked i (S start) ltac:(lra)) as N.
  destruct (j =? i)%nat eqn:E.
  - pose proof (contribution_pos w start Hw). lra.
  - destruct Hin as [->|Hin]; [now rewrite Nat.eqb_refl in E|].
    specialize (IH (S start) Hw Hin). lra.
Qed.

(** X15.  For a query with a scorable token, every fused result is the
    passage of a corpus index that stands in the truncated lexical list or
    in the truncated vector list; its score is not negative for
    [alpha >= 0] and is positive for [alpha > 0]. *)
Theorem fused_result_provenance
  (hr : t) (query : string) (k : Z) (alpha : Q) (doc : string) (s : Q) :
  query_tokens query <> [] ->
  In (doc, s) (search hr query k alpha) ->
  exists i : nat,
    nth_error (documents hr) i = Some doc /\
    (In i (bm25_top hr query k) \/ In i (vector_top hr query k)) /\
    (0 <= alpha -> 0 <= s) /\
    (0 < alpha -> 0 < s).
Proof.
  intros Ht Hin. destruct (search_In hr query k alpha doc s Ht Hin) as (i & Hi & Hd).
  exists i. split; [assumption|].
  assert (Hk : In i (bm25_top hr query k) \/ In i (vector_top hr query k)).
  { apply (in_map fst) in Hi. simpl in Hi. unfold rrf_scores in Hi.
    rewrite !add_ranks_keys in Hi. simpl in Hi. tauto. }
  split; [exact Hk|].
  rewrite (rrf_scores_In hr query k alpha i s Hi). unfold fused_score_spec.
  split.
  - intros Ha.
    pose proof (rank_sum_nonneg 1 (bm25_top hr query k) i 0 ltac:(lra)).
    pose proof (rank_sum_nonneg alpha (vector_top hr query k) i 0 Ha). lra.
  - intros Ha.
    pose proof (rank_sum_nonneg 1 (bm25_top hr query k) i 0 ltac:(lra)).
    pose proof (rank_sum_nonneg alpha (vector_top hr query k) i 0 ltac:(lra)).
    destruct Hk as [Hk|Hk].
    + pose proof (rank_sum_pos 1 (bm25_top hr query k) i 0 ltac:(lra) Hk). lra.
    + pose proof (rank_sum_pos alpha (vector_top hr query k) i 0 Ha Hk). lra.
Qed.

Lemma dict_set_keys_order (d : dict) (key : nat) (v : Q) :
  map fst (dict_set d key v)
  = if existsb (Nat.eqb key) (map fst d) then map fst d
    else (map fst d ++ [key])%list.
Proof.
  induction d as [|[k0 v0] d IH]; simpl; [reflexivity|].
  destruct (k0 =? key)%nat eqn:E.
  - apply Nat.eqb_eq in E. subst k0. simpl. now rewrite Nat.eqb_refl.
  - simpl. rewrite IH, (Nat.eqb_sym key k0), E. simpl.
    destruct (existsb (Nat.eqb key) (map fst d)); reflexivity.
Qed.

Lemma add_ranks_from_keys_order (weight : Q) (ranked : list nat) :
  forall (start : nat) (d : dict),
    map fst
      (fold_left
         (fun d (e : nat * nat) =>
            let (rank, doc_idx) := e in
            dict_set d doc_idx (dict_get d doc_idx 0 + contribution weight rank)%Q)
         (combine (seq start (List.length ranked)) ranked) d)
    = fold_left
        (fun acc i => if existsb (Nat.eqb i) acc then acc else (acc ++ [i])%list)
        ranked (map fst d).
Proof.
  induction ranked as [|j ranked IH]; intros start d; simpl; [reflexivity|].
  now rewrite IH, dict_set_keys_order.
Qed.

(** Sorting leaves the entries of one score in the order they had. *)
Lemma insert_desc_stable (q : Q) (x : nat * Q) (l : list (nat * Q)) :
  filter (fun e => Qeq_bool (snd e) q) (insert_desc x l)
  = filter (fun e => Qeq_bool (snd e) q) (x :: l).
Proof.
  induction l as [|y l IH]; [reflexivity|].
  cbn [insert_desc].
  destruct (Qle_bool (snd y) (snd x)) eqn:E; [reflexivity|].
  cbn [filter] in *. rewrite IH.
  destruct (Qeq_bool (snd x) q) eqn:Ex; [|reflexivity].
  destruct (Qeq_bool (snd y) q) eqn:Ey; [|reflexivity].
  apply Qeq_bool_iff in Ex, Ey.
  assert (C : Qle_bool (snd y) (snd x) = true).
  { apply Qle_bool_iff. rewrite Ex, Ey. apply Qle_refl. }
  congruence.
Qed.

Lemma sorted_desc_stable (q : Q) (l : list (nat * Q)) :
  filter (fun e => Qeq_bool (snd e) q) (sorted_desc l)
  = filter (fun e => Qeq_bool (snd e) q) l.
Proof.
  induction l as [|x l IH]; [reflexivity|].
  cbn [sorted_desc fold_right]. fold (sorted_desc l).
  rewrite insert_desc_stable. cbn [filter]. now rewrite IH.
Qed.

(** X16.  The score dictionary lists the indices in the order in which
    they are first met, the truncated lexical list before the truncated
    vector list, and the sort by score keeps entries of equal score in that
    order. *)
Theorem ties_keep_first_seen_order
  (hr : t) (query : string) (k : Z) (alpha : Q) (q : Q) :
  map fst (rrf_scores hr query k alpha)
  = seen_order (bm25_top hr query k ++ vector_top hr query k) /\
  filter (fun e => Qeq_bool (snd e) q) (sorted_desc (rrf_scores hr query k alpha))
  = filter (fun e => Qeq_bool (snd e) q) (rrf_scores hr query k alpha).
Proof.
  split; [|apply sorted_desc_stable].
  unfold rrf_scores, add_ranks, enumerate, seen_order.
  rewrite !add_ranks_from_keys_order. simpl map.
  now rewrite fold_left_app.
Qed.

Lemma dict_get_absent (d : dict) (key : nat) (default : Q) :
  ~ In key (map fst d) -> dict_get d key default = default.
Proof.
  induction d as [|[k0 v0] d IH]; simpl; intros H; [reflexivity|].
  destruct (k0 =? key)%nat eqn:E.
  - apply Nat.eqb_eq in E. subst k0. exfalso. apply H. now left.
  - apply IH. intros C. apply H. now right.
Qed.

Lemma dict_set_absent (d : dict) (key : nat) (v : Q) :
  ~ In key (map fst d) -> dict_set d key v = (d ++ [(key, v)])%list.
Proof.
  induction d as [|[k0 v0] d IH]; simpl; intros H; [reflexivity|].
  destruct (k0 =? key)%nat eqn:E.
  - apply Nat.eqb_eq in E. subst k0. exfalso. apply H. now left.
  - rewrite IH; [reflexivity|]. intros C. apply H. now right.
Qed.

(** Contributions of indices that are new to the dictionary are appended
    in rank order. *)
Lemma add_ranks_from_fresh (weight : Q) (ranked : list nat) :
  forall (start : nat) (d : dict),
    NoDup ranked ->
    (forall i, In i ranked -> ~ In i (map fst d)) ->
    fold_left
      (fun d (e : nat * nat) =>
         let (rank, doc_idx) := e in
         dict_set d doc_idx (dict_get d doc_idx 0 + contribution weight rank)%Q)
      (combine (seq start (List.length ranked)) ranked) d
    = (d ++ map (first_entry weight)
              (combine (seq start (List.length ranked)) ranked))%list.
Proof.
  induction ranked as [|j ranked IH]; intros start d Hnd Hfresh; simpl.
  - now rewrite app_nil_r.
  - inversion Hnd as [|? ? Hnin Hnd']; subst.
    rewrite dict_get_absent, dict_set_absent by (apply Hfresh; now left).
    rewrite IH; [|assumption|].
    + rewrite <- app_assoc. reflexivity.
    + intros i Hi. rewrite map_app, in_app_iff. simpl.
      intros [C|[C|[]]].
      * apply (Hfresh i); [now right | assumption].
      * subst j. contradiction.
Qed.

Lemma first_entries_descending (ranked : list nat) :
  forall start,
    score_descending
      (map (first_entry 1) (combine (seq start (List.length ranked)) ranked)).
Proof.
  unfold score_descending.
  induction ranked as [|j ranked IH]; intros start; simpl; constructor.
  - apply IH.
  - apply Forall_forall. intros e He. apply in_map_iff in He.
    destruct He as ([r i] & <- & Hin). apply in_combine_l, in_seq in Hin.
    unfold first_entry. simpl.
    pose proof (contribution_mono 1 start r ltac:(lra) ltac:(lia)). lra.
Qed.

Lemma sorted_desc_of_descending (l : list (nat * Q)) :
  score_descending l -> sorted_desc l = l.
Proof.
  unfold score_descending.
  induction l as [|x l IH]; intros H; [reflexivity|].
  inversion H as [|? ? Hs Hall]; subst.
  cbn [sorted_desc fold_right]. fold (sorted_desc l). rewrite (IH Hs).
  destruct l as [|y l]; [reflexivity|]. cbn [insert_desc].
  inversion Hall as [|? ? Hy _]; subst.
  apply Qle_bool_iff in Hy. now rewrite Hy.
Qed.

Lemma list_slice_to_map {A B : Type} (f : A -> B) (l : list A) (n : Z) :
  list_slice_to (map f l) n = map f (list_slice_to l n).
Proof.
  unfold list_slice_to. rewrite length_map.
  destruct (0 <=? n)%Z; apply firstn_map.
Qed.

(** X17.  When the vector ranking names no corpus index and no index
    stands twice in the truncated lexical list, the fusion search returns
    the lexical ranking: the first [k] entries of that list, in rank order,
    each with the score [0 + 1 / (60 + rank + 1)]. *)
Theorem empty_vector_ranking_gives_lexical_order
  (hr : t) (query : string) (k : Z) (alpha : Q) :
  query_tokens query <> [] ->
  vector_ranked hr query = [] ->
  NoDup (bm25_top hr query k) ->
  search hr query k alpha
  = flat_map (lookup_entry (documents hr))
      (map (first_entry 1) (list_slice_to (enumerate (bm25_top hr query k)) k)).
Proof.
  intros Ht Hv Hnd. rewrite search_unfold by assumption.
  assert (E : rrf_scores hr query k alpha
              = map (first_entry 1) (enumerate (bm25_top hr query k))).
  { unfold rrf_scores, vector_top. rewrite Hv, list_slice_to_nil.
    unfold add_ranks at 1. simpl fold_left.
    unfold add_ranks, enumerate.
    rewrite add_ranks_from_fresh; [reflexivity | assumption | intros i _ []]. }
  rewrite E. unfold enumerate.
  rewrite sorted_desc_of_descending by apply first_entries_descending.
  now rewrite list_slice_to_map.
Qed.

End FusionMore.

(* ====================================================================== *)
(** ** The vector store *)
(* ====================================================================== *)

Section Store.

Import VectorStore.

Context {B : backend}.

Lemma last_In {A : Type} (l : list A) (d : A) : l <> [] -> In (last l d) l.
Proof.
  induction l as [|x l IH]; intros H; [contradiction|].
  destruct l as [|y l]; [now left|]. right. apply IH. discriminate.
Qed.

Lemma lookup_In (self : t B) (hit : Q * label) (doc : string) (s : Q) :
  documents self <> [] ->
  In (doc, s) (lookup self hit) -> In doc (documents self) /\ s = fst hit.
Proof.
  intros Hne. destruct hit as [score [i|]]; simpl.
  - destruct (nth_error (documents self) i) as [d|] eqn:E; [|contradiction].
    intros [H|[]]. inversion H; subst. split; [|reflexivity].
    eapply nth_error_In; eassumption.
  - intros [H|[]]. inversion H; subst. split; [|reflexivity].
    now apply last_In.
Qed.

(** X18.  The vector search returns the empty list, without consulting the
    index, when the store has no index or no documents.  Otherwise every
    passage it returns is a document of the store and there are no more
    results than the index reported; a label beyond the documents is
    skipped, but the padding label -1 is not: it yields the last
    document. *)
Theorem vector_search_results (self : t B) (query : string) (k : Z) :
  (index self = None \/ documents self = [] -> search self query k = []) /\
  (forall doc s, In (doc, s) (search self query k) -> In doc (documents self)) /\
  (forall stored, index self = Some stored ->
                  (List.length (search self query k)
                   <= List.length (index_search B stored (embed B query) k))%nat) /\
  (forall stored score,
      index self = Some stored -> documents self <> [] ->
      In (score, Padding) (index_search B stored (embed B query) k) ->
      In (last (documents self) "", score) (search self query k)).
Proof.
  unfold search. repeat split.
  - intros [H|H]; [now rewrite H|]. rewrite H. now destruct (index self).
  - intros doc s. destruct (index self) as [stored|]; [|contradiction].
    destruct (documents self) as [|d ds] eqn:E; [contradiction|].
    simpl Nat.eqb. cbv iota. rewrite in_flat_map.
    intros (hit & _ & Hin). rewrite <- E in *.
    apply (lookup_In self hit doc s); [rewrite E; discriminate | assumption].
  - intros stored ->.
    destruct (List.length (documents self) =? 0)%nat; [simpl; lia|].
    induction (index_search B stored (embed B query) k) as [|[score [i|]] l IH];
      simpl; [lia| |lia].
    rewrite length_app. destruct (nth_error (documents self) i); simpl; lia.
  - intros stored score -> Hne Hin.
    destruct (documents self) as [|d ds] eqn:E; [contradiction|].
    simpl Nat.eqb. cbv iota. rewrite <- E. apply in_flat_map.
    exists (score, Padding). split; [assumption|]. now left.
Qed.

(** X19.  Adding documents appends them to the stored ones and keeps the
    index aligned with the documents: the index holds the embedding of
    every document, in order.  Adding nothing changes nothing. *)
Theorem add_documents_keeps_alignment (self : t B) (docs : list string) :
  aligned self ->
  aligned (add_documents self docs) /\
  documents (add_documents self docs) = (documents self ++ docs)%list /\
  (docs = [] -> add_documents self docs = self) /\
  (docs <> [] ->
   index (add_documents self docs)
   = Some (map (embed B) (documents self ++ docs)%list)).
Proof.
  intros Ha. destruct docs as [|d docs].
  - simpl. rewrite app_nil_r. repeat split; auto. intros C. now contradiction C.
  - unfold aligned in *. simpl.
    assert (E : ((match index self with Some v => v | None => [] end)
                 ++ embed B d :: map (embed B) docs)%list
                = map (embed B) (documents self ++ d :: docs)%list).
    { rewrite map_app. simpl. destruct (index self) as [stored|].
      - now rewrite Ha.
      - now rewrite Ha. }
    repeat split; try assumption; try discriminate.
    intros _. now rewrite E.
Qed.

(** X20.  Saving a store that has an index and loading the directory into
    any store gives back the saved index and documents, and [load] reports
    success.  A store without an index saves its documents only: loading
    from a directory that had no index file fails and changes nothing. *)
Theorem save_then_load (self other : t B) (fs : files B) :
  (index self <> None -> load other (save self fs) = (self, true)) /\
  (index self = None -> faiss_index fs = None ->
   load other (save self fs) = (other, false)).
Proof.
  destruct self as [[stored|] docs]; unfold load, save; simpl; split.
  - reflexivity.
  - discriminate.
  - intros C. now contradiction C.
  - intros _ ->. reflexivity.
Qed.

End Store.

(* ====================================================================== *)
(** ** Initialization *)
(* ====================================================================== *)

Section Initialization.

Import Lifecycle.

Context {B : VectorStore.backend} (E : externals).




(** X22.  A forced rebuild does not replace the corpus: the chunks of the
    folder are appended to the documents the store already holds, and that
    longer list is what gets written to disk. *)
Theorem forced_rebuild_appends
  (self : state B) (fs : VectorStore.files B) (data_folder : string) :
  process_documents E data_folder <> [] ->
  let out := initialize E self fs data_folder true in
  VectorStore.documents (vector_store (snd (fst out)))
  = (VectorStore.documents (vector_store self)
     ++ process_documents E data_folder)%list /\
  VectorStore.docs_pkl (snd out)
  = Some (VectorStore.documents (vector_store self)
          ++ process_documents E data_folder)%list.
Proof.
  intros Hp. cbv zeta. unfold initialize.
  destruct (process_documents E data_folder) as [|c cs] eqn:Ep; [contradiction|].
  simpl. split; reflexivity.
Qed.

(** X23.  Starting from a new pipeline and an empty index directory, a
    first [initialize] stores the chunks of the folder.  A second one with
    [force_rebuild] stores every chunk twice, so the corpus then holds
    repeated passages; a second one without it reads the files back and
    keeps the corpus as it was. *)
Theorem second_initialize
  (fs : VectorStore.files B) (data_folder : string) (hybrid : option HybridRetriever.t) :
  VectorStore.faiss_index fs = None ->
  process_documents E data_folder <> [] ->
  let fresh :=
    {| vector_store := VectorStore.empty B;
       hybrid_retriever := hybrid;
       is_initialized := false |} in
  let first := initialize E fresh fs data_folder false in
  let rebuilt := initialize E (snd (fst first)) (snd first) data_folder true in
  let reloaded := initialize E (snd (fst first)) (snd first) data_folder false in
  VectorStore.documents (vector_store (snd (fst first)))
  = process_documents E data_folder /\
  VectorStore.documents (vector_store (snd (fst rebuilt)))
  = (process_documents E data_folder ++ process_documents E data_folder)%list /\
  ~ NoDup (VectorStore.documents (vector_store (snd (fst rebuilt)))) /\
  VectorStore.documents (vector_store (snd (fst reloaded)))
  = process_documents E data_folder.
Proof.
  intros Hfs Hp. cbv zeta.
  assert (F : initialize E
                {| vector_store := VectorStore.empty B;
                   hybrid_retriever := hybrid;
                   is_initialized := false |} fs data_folder false
              = (None,
                 {| vector_store :=
                      VectorStore.add_documents (VectorStore.empty B)
                        (process_documents E data_folder);
                    hybrid_retriever :=
                      match make_retriever E
                              (VectorStore.add_documents (VectorStore.empty B)
                                 (process_documents E data_folder)) with
                      | inr hr => Some hr
                      | inl _ => None
                      end;
                    is_initialized := true |},
                 VectorStore.save
                   (VectorStore.add_documents (VectorStore.empty B)
                      (process_documents E data_folder)) fs)).
  { unfold initialize, VectorStore.load. simpl vector_store. rewrite Hfs.
    destruct (process_documents E data_folder) as [|c cs]; [contradiction|].
    reflexivity. }
  rewrite F. simpl fst. simpl snd.
  destruct (process_documents E data_folder) as [|c cs] eqn:Ep; [contradiction|].
  split; [reflexivity|]. split; [|split].
  - unfold initialize. rewrite Ep. reflexivity.
  - unfold initialize. rewrite Ep. simpl.
    intros C. inversion C as [|? ? Hnin _]; subst. apply Hnin.
    apply in_or_app. right. now left.
  - unfold initialize. reflexivity.
Qed.

End Initialization.

(* ====================================================================== *)
(** ** Further statements on concrete inputs *)
(* ====================================================================== *)

Section MoreInstances.

Import Examples MoreExamples.

(** X3 on the pipeline with 256 available tokens. *)
Lemma every_exit_fits_on_long_corpus :
  (RAGPipeline.loop_fuel long_pipeline 5 <= 5)%nat /\
  exists (b : RAGPipeline.budget_result) (s' : unit),
    run (generator_down "")
      (RAGPipeline.budget_loop 5 long_pipeline "s1" "what is life" true 5 "" 0) tt
    = (inr (Some b), s') /\
    ((RAGPipeline.tokens_total
        (RAGPipeline.final_conversation_context b)
        (RAGPipeline.final_retrieved_context b)
        (RAGPipeline._estimate_tokens "what is life")
      <= RAGPipeline.available_context_tokens long_pipeline)%Z \/
     (RAGPipeline.available_context_tokens long_pipeline
      - RAGPipeline.available_context_tokens long_pipeline / 2
      < RAGPipeline._estimate_tokens "what is life")%Z) /\
    (RAGPipeline.final_k b <= 5)%Z /\
    (RAGPipeline.final_k b = 5%Z \/
     RAGPipeline.min_k long_pipeline <= RAGPipeline.final_k b)%Z.
Proof.
  split; [vm_compute; lia|].
  apply (budget_loop_every_exit_fits unit (generator_down "") tt long_pipeline
           "s1" "what is life" "" true 5 5).
  vm_compute. lia.
Defined.

(** X5 on a turn with an unreachable generator. *)
Lemma retrieval_report_on_long_corpus :
  RAGPipeline.greeting_shortcut "what is life" = false /\
  exists (res : chat_result) (s' : unit),
    run (generator_down "")
      (RAGPipeline.chat long_pipeline "s1" "what is life" true false) tt
    = (inr res, s') /\
    (te_conversation (tokens (debug res)) + te_retrieved (tokens (debug res))
     + te_query (tokens (debug res))
     <= te_total_context_allowed (tokens (debug res)))%Z /\
    (used_k (debug res) <= 5)%Z /\
    evaluation res = PyNone.
Proof.
  split; [reflexivity|].
  assert (H : store_answers (generator_down "")).
  { repeat split. intros. now exists "". }
  destruct (retrieval_turn_returns (generator_down "") long_pipeline "s1"
              "what is life" true false H tt) as (res & s' & Hrun & _).
  exists res, s'. split; [exact Hrun|].
  destruct (retrieval_turn_report (generator_down "") long_pipeline "s1"
              "what is life" true false tt s' res eq_refl Hrun)
    as (Ha & Hfit & Hle & _ & _ & Hev).
  split; [|split; [exact Hle | now apply Hev]].
  destruct Hfit as [Hfit|Hbig]; [exact Hfit|].
  exfalso. rewrite Ha in Hbig.
  assert (Q : te_query (tokens (debug res)) = 3%Z).
  { clear -Hrun. unfold RAGPipeline.chat in Hrun. vm_compute in Hrun.
    inversion Hrun. reflexivity. }
  rewrite Q in Hbig. vm_compute in Hbig. discriminate.
Defined.

(** X6 on a store that refuses every write. *)
Lemma refused_write_aborts_the_turn :
  RAGPipeline.greeting_shortcut "what is life" = false /\
  exists s' : unit,
    run (store_refuses "")
      (RAGPipeline.chat long_pipeline "s1" "what is life" true false) tt
    = (inl (Exception "write refused"), s').
Proof.
  split; [reflexivity|].
  apply (exchange_write_failure_propagates (store_refuses "") long_pipeline "s1"
           "what is life" false (Exception "write refused") tt).
  - reflexivity.
  - intros. now exists "".
  - intros. reflexivity.
Defined.

(** X7 on the same store: the greeting turn still returns. *)
Lemma greeting_survives_refused_writes :
  RAGPipeline.greeting_shortcut "hi" = true /\
  exists (res : chat_result) (s' : unit),
    run (store_refuses "") (RAGPipeline.chat long_pipeline "s1" "hi" true true) tt
    = (inr res, s') /\
    retrieved_context_preview (debug res) = "" /\
    used_k (debug res) = 0%Z /\
    note (debug res) = Some "retrieval_skipped_greeting" /\
    forall k : event_kind,
      In k (event_log (store_refuses "")
              (RAGPipeline.chat long_pipeline "s1" "hi" true true) tt) ->
      k = Completion \/ k = MessageWrite \/ k = Evaluation.
Proof.
  split; [reflexivity|].
  apply (greeting_turn_always_returns (store_refuses "") long_pipeline "s1" "hi"
           true true tt).
  reflexivity.
Defined.

(** X8 on a turn without history. *)
Lemma turn_without_history_on_long_corpus :
  RAGPipeline.greeting_shortcut "what is life" = false /\
  forall k : event_kind,
    In k (event_log (generator_says "An answer." "earlier turns")
            (RAGPipeline.chat long_pipeline "s1" "what is life" false false) tt) ->
    k = Completion \/ k = MessageWrite \/ k = Evaluation.
Proof.
  split; [reflexivity|].
  apply (turn_without_history (generator_says "An answer." "earlier turns")
           long_pipeline "s1" "what is life" false tt).
  reflexivity.
Defined.

(** X11 on these two contexts. *)
Lemma rewrite_ignores_older_context :
  "A" ++ long_tail <> "" /\
  "B" ++ long_tail <> "" /\
  RAGPipeline.rewrite_query_with_context "it is" ("A" ++ long_tail)
  = RAGPipeline.rewrite_query_with_context "it is" ("B" ++ long_tail).
Proof.
  split; [discriminate|]. split; [discriminate|].
  apply (rewrite_reads_last_800_characters "it is" ("A" ++ long_tail)
           ("B" ++ long_tail)).
  - discriminate.
  - discriminate.
  - vm_compute. reflexivity.
Defined.

(** X13 on a text in mixed case. *)
Lemma tokens_of_mixed_case_text :
  In "world" (HybridRetriever.tokenize "Hello a WORLD") /\
  (2 <= String.length "world")%nat /\
  every_char not_space "world" = true /\
  PyStr.lower "world" = "world" /\
  HybridRetriever.tokenize (PyStr.lower "Hello a WORLD")
  = HybridRetriever.tokenize "Hello a WORLD".
Proof.
  assert (H : In "world" (HybridRetriever.tokenize "Hello a WORLD")).
  { vm_compute. right. now left. }
  split; [exact H|].
  apply (tokenize_tokens "Hello a WORLD" "world" H).
Defined.

(** X15 on the two-article corpus. *)
Lemma provenance_on_articles :
  HybridRetriever.query_tokens "life" <> [] /\
  In ("Article 21 protects right to life.", (1159 # 37210)%Q)
    (HybridRetriever.search articles_retriever "life" 5 (9 # 10)) /\
  exists i : nat,
    nth_error (HybridRetriever.documents articles_retriever) i
    = Some "Article 21 protects right to life." /\
    (In i (HybridRetriever.bm25_top articles_retriever "life" 5) \/
     In i (HybridRetriever.vector_top articles_retriever "life" 5)) /\
    (0 < 1159 # 37210)%Q.
Proof.
  assert (T : HybridRetriever.query_tokens "life" <> []) by (vm_compute; discriminate).
  assert (H : In ("Article 21 protects right to life.", (1159 # 37210)%Q)
                (HybridRetriever.search articles_retriever "life" 5 (9 # 10))).
  { vm_compute. now left. }
  split; [exact T|]. split; [exact H|].
  destruct (fused_result_provenance articles_retriever "life" 5 (9 # 10)
              "Article 21 protects right to life." (1159 # 37210)%Q T H)
    as (i & Hd & Hk & _ & Hpos).
  exists i. split; [exact Hd|]. split; [exact Hk|]. apply Hpos. reflexivity.
Defined.

(** X17 on that retriever. *)
Lemma lexical_order_on_articles :
  HybridRetriever.query_tokens "life" <> [] /\
  HybridRetriever.vector_ranked lexical_only_retriever "life" = [] /\
  HybridRetriever.search lexical_only_retriever "life" 1 (9 # 10)
  = [("Article 21 protects right to life.", (0 + 1 / 61)%Q)].
Proof.
  assert (T : HybridRetriever.query_tokens "life" <> []) by (vm_compute; discriminate).
  split; [exact T|]. split; [reflexivity|].
  rewrite (empty_vector_ranking_gives_lexical_order lexical_only_retriever "life" 1
             (9 # 10) T eq_refl).
  - reflexivity.
  - vm_compute. repeat (constructor; [simpl; intuition lia|]). constructor.
Defined.

(** X19 on the store right after its construction. *)
Lemma first_documents_are_aligned :
  aligned (VectorStore.empty toy_backend) /\
  aligned (VectorStore.add_documents (VectorStore.empty toy_backend) articles) /\
  VectorStore.documents
    (VectorStore.add_documents (VectorStore.empty toy_backend) articles)
  = articles.
Proof.
  assert (H : aligned (VectorStore.empty toy_backend)) by reflexivity.
  split; [exact H|].
  destruct (add_documents_keeps_alignment (VectorStore.empty toy_backend) articles H)
    as (Ha & Hd & _).
  split; [exact Ha | exact Hd].
Defined.


(** X22 and X23 on the toy collaborators: the folder "data" holds the two
    articles. *)
Lemma forced_rebuild_on_toy_store :
  Lifecycle.process_documents toy_externals "data" <> [] /\
  VectorStore.documents
    (Lifecycle.vector_store
       (snd (fst (Lifecycle.initialize toy_externals
                    {| Lifecycle.vector_store :=
                         VectorStore.add_documents (VectorStore.empty toy_backend)
                           articles;
                       Lifecycle.hybrid_retriever := None;
                       Lifecycle.is_initialized := true |}
                    no_files "data" true))))
  = (articles ++ articles)%list.
Proof.
  assert (P : Lifecycle.process_documents toy_externals "data" <> [])
    by (vm_compute; discriminate).
  split; [exact P|].
  destruct (forced_rebuild_appends toy_externals
              {| Lifecycle.vector_store :=
                   VectorStore.add_documents (VectorStore.empty toy_backend) articles;
                 Lifecycle.hybrid_retriever := None;
                 Lifecycle.is_initialized := true |}
              no_files "data" P) as [Hd _].
  exact Hd.
Defined.

Lemma second_initialize_on_toy_store :
  VectorStore.faiss_index no_files = None /\
  Lifecycle.process_documents toy_externals "data" <> [] /\
  VectorStore.documents
    (Lifecycle.vector_store
       (snd (fst (Lifecycle.initialize toy_externals
                    (snd (fst (Lifecycle.initialize toy_externals fresh no_files
                                 "data" false)))
                    (snd (Lifecycle.initialize toy_externals fresh no_files
                            "data" false))
                    "data" true))))
  = (articles ++ articles)%list.
Proof.
  assert (P : Lifecycle.process_documents toy_externals "data" <> [])
    by (vm_compute; discriminate).
  split; [reflexivity|]. split; [exact P|].
  destruct (second_initialize toy_externals no_files "data" None eq_refl P)
    as (_ & Hd & _).
  exact Hd.
Defined.

(** Retrieval through a pipeline before and after its first
    initialization. *)
Example retrieval_before_and_after_initialize :
  RAGPipeline.retrieve_context (Lifecycle.pipeline fresh true 6000 1000 5) "life" 5
  = "" /\
  RAGPipeline.retrieve_context
    (Lifecycle.pipeline
       (snd (fst (Lifecycle.initialize toy_externals fresh no_files "data" false)))
       true 6000 1000 5) "life" 5
  = PyStr.join (PyStr.nl ++ PyStr.nl)
      ["Article 14 ensures equality."; "Article 21 protects right to life."].
Proof. split; vm_compute; reflexivity. Qed.

(** After the forced rebuild the vector ranking of the toy store names
    indices twice, which is the situation in which the fused score of an
    index collects several vector terms. *)
Example rebuilt_store_ranks_an_index_twice :
  let rebuilt :=
    snd (fst (Lifecycle.initialize toy_externals
                (snd (fst (Lifecycle.initialize toy_externals fresh no_files
                             "data" false)))
                (snd (Lifecycle.initialize toy_externals fresh no_files "data" false))
                "data" true)) in
  option_map (fun hr => HybridRetriever.vector_ranked hr "life")
    (Lifecycle.hybrid_retriever rebuilt)
  = Some [0; 1; 0; 1]%nat.
Proof. vm_compute. reflexivity. Qed.

End MoreInstances.
